(** * luna/ruby_utils.py: text measurement and line wrapping

    A shallow embedding of [RubyUtils] and the properties of its width
    calculator, ruby parser, word segmenter, control-code expander and
    line wrapper.

    A Python [str] is a sequence of Unicode codepoints: it is modelled as
    a list of codepoints ([N]).  Python integers are unbounded: [Z].
    A raised exception is the [Raise] case of [result]; the [for] loops of
    the source are [for_each] over a per-character step function that
    threads the loop's local variables as a record. *)

From Stdlib Require Import List ZArith NArith Bool Lia String Ascii.
Import ListNotations.
Open Scope Z_scope.

(** ** Strings *)

Definition codepoint := N.
Definition pystr := list codepoint.

(** An ASCII literal of the source as a [pystr]. *)
Definition of_string (s : string) : pystr :=
  map N_of_ascii (list_ascii_of_string s).

Definition LT : codepoint := 60%N.       (* '<' *)
Definition GT : codepoint := 62%N.       (* '>' *)
Definition BAR : codepoint := 124%N.     (* '|' *)
Definition SP : codepoint := 32%N.       (* ' ' *)
Definition NL : codepoint := 10%N.       (* '\n' *)
Definition PCT : codepoint := 37%N.      (* '%' *)
Definition LBRACE : codepoint := 123%N.  (* '{' *)
Definition RBRACE : codepoint := 125%N.  (* '}' *)
Definition HBAR : codepoint := 8213%N.   (* U+2015, the horizontal bar *)

(** Equality of two strings ([==] on [str]). *)
Fixpoint str_eqb (a b : pystr) : bool :=
  match a, b with
  | [], [] => true
  | x :: a', y :: b' => N.eqb x y && str_eqb a' b'
  | _, _ => false
  end.

(** Truthiness of a string: [if acc:]. *)
Definition truthy (s : pystr) : bool :=
  match s with [] => false | _ :: _ => true end.

(** [len(s)]. *)
Definition len (s : pystr) : Z := Z.of_nat (List.length s).

(** [sep.join(parts)]. *)
Fixpoint join (sep : pystr) (parts : list pystr) : pystr :=
  match parts with
  | [] => []
  | [p] => p
  | p :: rest => p ++ sep ++ join sep rest
  end.

(** ** Exceptions *)

Inductive exn : Type :=
| AssertionError (msg : pystr)
| ValueError
| IndexError.

Inductive result (A : Type) : Type :=
| Ok (a : A)
| Raise (e : exn).
Arguments Ok {A} a.
Arguments Raise {A} e.

Definition bind {A B} (m : result A) (k : A -> result B) : result B :=
  match m with
  | Ok a => k a
  | Raise e => Raise e
  end.

Notation "x <- m ;; k" := (bind m (fun x => k))
  (at level 61, m at next level, right associativity).

(** [assert cond, msg]. *)
Definition assert (cond : bool) (msg : pystr) : result unit :=
  if cond then Ok tt else Raise (AssertionError msg).

(** A [for x in xs:] loop whose body may raise: the body maps the loop's
    variables before an iteration to those after it. *)
Fixpoint for_each {S A : Type} (body : S -> A -> result S) (st : S) (xs : list A)
  : result S :=
  match xs with
  | [] => Ok st
  | x :: xs' =>
      match body st x with
      | Ok st' => for_each body st' xs'
      | Raise e => Raise e
      end
  end.

(** ** unicode_aware_len *)

Definition DOUBLEWIDE_CHARS : list codepoint := [HBAR].

(** [c in DOUBLEWIDE_CHARS]. *)
Definition doublewide (c : codepoint) : bool :=
  existsb (N.eqb c) DOUBLEWIDE_CHARS.

Definition unicode_aware_len (string : pystr) : Z :=
  fold_left (fun length c => if doublewide c then length + 2 else length + 1)
            string 0.

(** ** remove_ruby_text *)

Record strip_state : Type := mkStrip {
  sr_ret : pystr;
  sr_processing_ruby : bool;
  sr_seen_midline : bool
}.

Definition strip_init : strip_state := mkStrip [] false false.

(** The first assertion's message is not an f-string in the source: its
    braces are literal text. *)
Definition msg_repeated_start : pystr :=
  of_string "Repeated ruby-start encountered in line '{line}'".
Definition msg_delim_outside (line : pystr) : pystr :=
  of_string "Found ruby-delimiter in non-ruby text for line '" ++ line ++ of_string "'".
Definition msg_end_outside (line : pystr) : pystr :=
  of_string "Found ruby-end outside ruby context for line '" ++ line ++ of_string "'".
Definition msg_end_no_delim (line : pystr) : pystr :=
  of_string "Found ruby-end without ruby-delimiter for line '" ++ line ++ of_string "'".

Definition strip_step (line : pystr) (st : strip_state) (c : codepoint)
  : result strip_state :=
  if N.eqb c LT then
    _ <- assert (negb (sr_processing_ruby st)) msg_repeated_start ;;
    Ok (mkStrip (sr_ret st) true false)
  else if N.eqb c BAR then
    _ <- assert (sr_processing_ruby st) (msg_delim_outside line) ;;
    Ok (mkStrip (sr_ret st) (sr_processing_ruby st) true)
  else if N.eqb c GT then
    _ <- assert (sr_processing_ruby st) (msg_end_outside line) ;;
    _ <- assert (sr_seen_midline st) (msg_end_no_delim line) ;;
    Ok (mkStrip (sr_ret st) false true)
  else if negb (sr_processing_ruby st) || negb (sr_seen_midline st) then
    Ok (mkStrip (sr_ret st ++ [c]) (sr_processing_ruby st) (sr_seen_midline st))
  else
    Ok st.

(** The scan of a prefix [cs] of [line], from the initial variables. *)
Definition strip_scan (line cs : pystr) : result strip_state :=
  for_each (strip_step line) strip_init cs.

Definition remove_ruby_text (line : pystr) : result pystr :=
  st <- strip_scan line line ;;
  Ok (sr_ret st).

(** ** noruby_len *)

(** [try: ... except AssertionError as e: print(e); ...]: only an
    [AssertionError] is caught. *)
Definition noruby_len (line : pystr) : result Z :=
  match remove_ruby_text line with
  | Ok s => Ok (unicode_aware_len s)
  | Raise (AssertionError _) => Ok (unicode_aware_len line)
  | Raise e => Raise e
  end.

(** What [noruby_len] prints: the message of the assertion it caught. *)
Definition noruby_len_stdout (line : pystr) : list pystr :=
  match remove_ruby_text line with
  | Raise (AssertionError msg) => [msg]
  | _ => []
  end.

(** ** ruby_aware_split_words *)

Record split_state : Type := mkSplit {
  sp_ret : list pystr;
  sp_acc : pystr;
  sp_processing_ruby : bool
}.

Definition split_init : split_state := mkSplit [] [] false.

Definition msg_split_repeated_start (line : pystr) : pystr :=
  of_string "Encountered repeated ruby-start in line '" ++ line ++ of_string "'".
Definition msg_split_end_no_start (line : pystr) : pystr :=
  of_string "Encountered ruby-end without ruby-start in line '" ++ line ++ of_string "'".

(** The flush condition is the source's
    [c == ' ' or c == '\n' and not processing_ruby]: [and] binds tighter
    than [or]. *)
Definition split_step (line : pystr) (st : split_state) (c : codepoint)
  : result split_state :=
  pr1 <- (if N.eqb c LT then
            _ <- assert (negb (sp_processing_ruby st)) (msg_split_repeated_start line) ;;
            Ok true
          else Ok (sp_processing_ruby st)) ;;
  pr2 <- (if N.eqb c GT then
            _ <- assert pr1 (msg_split_end_no_start line) ;;
            Ok false
          else Ok pr1) ;;
  if N.eqb c SP || (N.eqb c NL && negb pr2) then
    let ret1 := sp_ret st ++ [sp_acc st] in
    let ret2 := if N.eqb c NL then ret1 ++ [[NL]] else ret1 in
    Ok (mkSplit ret2 [] pr2)
  else
    Ok (mkSplit (sp_ret st) (sp_acc st ++ [c]) pr2).

Definition ruby_aware_split_words (line : pystr) : result (list pystr) :=
  st <- for_each (split_step line) split_init line ;;
  Ok (if truthy (sp_acc st) then sp_ret st ++ [sp_acc st] else sp_ret st).

(** ** apply_control_codes *)

Record cc_state : Type := mkCC {
  cc_processed_line : pystr;
  cc_has_pct : bool;
  cc_in_cc : bool;
  cc_acc : pystr
}.

Definition cc_init : cc_state := mkCC [] false false [].

Definition msg_unhandled (cc_acc text : pystr) : pystr :=
  of_string "Unhandled control code '" ++ cc_acc ++ of_string "' in line '"
    ++ text ++ of_string "'".

Definition cc_step (text : pystr) (st : cc_state) (c : codepoint)
  : result cc_state :=
  if N.eqb c PCT then
    Ok (mkCC (cc_processed_line st) true (cc_in_cc st) (cc_acc st))
  else if cc_has_pct st && N.eqb c LBRACE then
    Ok (mkCC (cc_processed_line st) false true [])
  else if cc_in_cc st && N.eqb c RBRACE then
    if str_eqb (cc_acc st) (of_string "n") then
      Ok (mkCC (cc_processed_line st ++ [NL]) (cc_has_pct st) false (cc_acc st))
    else if str_eqb (cc_acc st) (of_string "s") then
      Ok (mkCC (cc_processed_line st ++ [SP]) (cc_has_pct st) false (cc_acc st))
    else
      Raise (AssertionError (msg_unhandled (cc_acc st) text))
  else if negb (cc_in_cc st) then
    Ok (mkCC (cc_processed_line st ++ [c]) (cc_has_pct st) (cc_in_cc st) (cc_acc st))
  else
    Ok (mkCC (cc_processed_line st) (cc_has_pct st) (cc_in_cc st) (cc_acc st ++ [c])).

(** The scan of [cs], a part of [text], from the variables [st]. *)
Definition cc_scan (text : pystr) (st : cc_state) (cs : pystr) : result cc_state :=
  for_each (cc_step text) st cs.

Definition apply_control_codes (text : pystr) : result pystr :=
  st <- cc_scan text cc_init text ;;
  Ok (cc_processed_line st).

(** ** linebreak_text *)

(** [[f(x) for x in xs]] where [f] may raise. *)
Fixpoint map_result {A B : Type} (f : A -> result B) (xs : list A)
  : result (list B) :=
  match xs with
  | [] => Ok []
  | x :: xs' =>
      y <- f x ;;
      ys <- map_result f xs' ;;
      Ok (y :: ys)
  end.

(** [max(xs)]: a [ValueError] on an empty sequence. *)
Definition py_max (xs : list Z) : result Z :=
  match xs with
  | [] => Raise ValueError
  | x :: xs' => Ok (fold_left Z.max xs' x)
  end.

(** [xs[-1]]: an [IndexError] on an empty list. *)
Definition py_last {A : Type} (xs : list A) : result A :=
  match rev xs with
  | [] => Raise IndexError
  | x :: _ => Ok x
  end.

Record wrap_state : Type := mkWrap {
  w_broken_lines : list pystr;
  w_acc : pystr;
  w_start_cursor_pos : Z;
  w_first_word : bool
}.

(** One iteration of the packing loop over [splitLine]. *)
Definition wrap_step (max_linelen : Z) (st : wrap_state) (word : pystr)
  : wrap_state :=
  if len (w_acc st ++ [SP] ++ word) + w_start_cursor_pos st >? max_linelen then
    mkWrap (w_broken_lines st ++ [w_acc st])
           (if negb (str_eqb word [NL]) then word else [])
           0
           (w_first_word st)
  else if str_eqb word [NL] then
    mkWrap (w_broken_lines st ++ [w_acc st]) [] 0 true
  else
    mkWrap (w_broken_lines st)
           (if negb (w_first_word st) then w_acc st ++ [SP] ++ word else word)
           (w_start_cursor_pos st)
           false.

(** The packing loop and the trailing accumulator: [broken_lines] as it is
    when it is joined. *)
Definition pack_lines (splitLine : list pystr) (max_linelen start_cursor_pos : Z)
  : result (list pystr) :=
  let st := fold_left (wrap_step max_linelen) splitLine
                      (mkWrap [] [] start_cursor_pos true) in
  keep <- (if truthy (w_acc st) then Ok true
           else last <- py_last splitLine ;; Ok (str_eqb last [NL])) ;;
  Ok (if keep : bool then w_broken_lines st ++ [w_acc st] else w_broken_lines st).

Definition linebreak_text (line : pystr) (max_linelen start_cursor_pos : Z)
  : result pystr :=
  n <- noruby_len line ;;
  if n + start_cursor_pos <? max_linelen then Ok line
  else
    splitLine <- ruby_aware_split_words line ;;
    widths <- map_result noruby_len splitLine ;;
    longest <- py_max widths ;;
    if max_linelen <? longest then Ok line
    else
      broken_lines <- pack_lines splitLine max_linelen start_cursor_pos ;;
      Ok (join [NL] broken_lines).

(** ** Predicates of the statements *)

(** The three characters of the annotation syntax. *)
Definition markup (c : codepoint) : bool :=
  N.eqb c LT || N.eqb c BAR || N.eqb c GT.

(** A line with no ['<'], ['|'] or ['>']. *)
Definition annotation_free (line : pystr) : bool :=
  forallb (fun c => negb (markup c)) line.

(** The number of double-width codepoints of a string. *)
Definition count_doublewide (s : pystr) : Z :=
  Z.of_nat (List.length (filter doublewide s)).

(** The width [noruby_len] computes, as a total function: the stripped
    width, or the raw one when stripping raises. *)
Definition noruby_width (line : pystr) : Z :=
  match remove_ruby_text line with
  | Ok s => unicode_aware_len s
  | Raise _ => unicode_aware_len line
  end.

(** A control-code name as it is written between [%{] and [}]: it holds
    neither ['%'] nor ['}']. *)
Definition code_name (code : pystr) : bool :=
  forallb (fun c => negb (N.eqb c PCT) && negb (N.eqb c RBRACE)) code.

(** A string with no double-width codepoint. *)
Definition narrow (s : pystr) : bool :=
  forallb (fun c => negb (doublewide c)) s.

(** A display line within the width budget. *)
Definition fits (max_linelen : Z) (l : pystr) : Prop :=
  noruby_width l <= max_linelen.

(** The loop variables of the packing loop keep every line within the
    width: the flushed lines and the accumulator measure at most
    [max_linelen], and the accumulator holds no double-width codepoint. *)
Definition wrap_inv (max_linelen : Z) (st : wrap_state) : Prop :=
  Forall (fits max_linelen) (w_broken_lines st)
  /\ fits max_linelen (w_acc st)
  /\ narrow (w_acc st) = true
  /\ 0 <= w_start_cursor_pos st.

(** A string in which the character [c0] does not occur. *)
Definition no_char (c0 : codepoint) (s : pystr) : bool :=
  forallb (fun c => negb (N.eqb c c0)) s.

(** A line with no ['<'] and no ['>']. *)
Definition ruby_free (line : pystr) : bool :=
  no_char LT line && no_char GT line.

(** The text of a reading segment: anything but ['<'] and ['>']. *)
Definition reading_text (s : pystr) : bool :=
  no_char LT s && no_char GT s.

(** A word of ordinary single-width characters: no space, no newline, no
    annotation syntax, no double-width codepoint. *)
Definition plain_word (w : pystr) : bool :=
  no_char SP w && no_char NL w && annotation_free w && narrow w.

(** A wrapped text with its line breaks turned back into spaces. *)
Definition unbreak (s : pystr) : pystr :=
  map (fun c => if N.eqb c NL then SP else c) s.

(** ** Checks on concrete inputs *)

Example split_plain :
  ruby_aware_split_words (of_string "a b c d")
  = Ok [of_string "a"; of_string "b"; of_string "c"; of_string "d"].
Proof. reflexivity. Qed.

Example wrap_abcd :
  linebreak_text (of_string "a b c d") 3 0
  = Ok (of_string "a b" ++ [NL] ++ of_string "c d").
Proof. vm_compute. reflexivity. Qed.

Example wrap_hello :
  linebreak_text (of_string "hello") 80 0 = Ok (of_string "hello").
Proof. vm_compute. reflexivity. Qed.

Example wrap_forced_break :
  linebreak_text (of_string "foo" ++ [NL] ++ of_string "bar") 7 0
  = Ok (of_string "foo" ++ [NL] ++ of_string "bar").
Proof. vm_compute. reflexivity. Qed.

Example strip_annotation :
  remove_ruby_text (of_string "x<ab|cd>y") = Ok (of_string "xaby").
Proof. reflexivity. Qed.

(** ** Facts about strings *)

Lemma str_eqb_spec (a b : pystr) : str_eqb a b = true <-> a = b.
Proof.
  revert b; induction a as [|x a IH]; intros [|y b]; simpl;
    try (split; [discriminate | congruence]); [tauto|].
  rewrite andb_true_iff, N.eqb_eq, IH. split.
  - intros [-> ->]; reflexivity.
  - intros [= -> ->]; auto.
Qed.

Lemma len_app (s t : pystr) : len (s ++ t) = len s + len t.
Proof. unfold len. rewrite length_app. lia. Qed.

(** ** Loops *)

Lemma for_each_app {S A : Type} (body : S -> A -> result S) (xs ys : list A) :
  forall st,
    for_each body st (xs ++ ys)
    = (st' <- for_each body st xs ;; for_each body st' ys).
Proof.
  induction xs as [|x xs IH]; intros st; simpl.
  - reflexivity.
  - destruct (body st x) as [st1|e]; simpl; [apply IH | reflexivity].
Qed.

(** A loop raises only what its body raises. *)
Lemma for_each_raise {S A : Type} (body : S -> A -> result S) (P : exn -> Prop) :
  (forall st x e, body st x = Raise e -> P e) ->
  forall xs st e, for_each body st xs = Raise e -> P e.
Proof.
  intros Hbody xs; induction xs as [|x xs IH]; intros st e; simpl.
  - discriminate.
  - destruct (body st x) as [st1|e1] eqn:Hb.
    + apply IH.
    + intros [= <-]. eapply Hbody; eassumption.
Qed.

(** ** The width calculator *)

Lemma doublewide_spec (c : codepoint) : doublewide c = N.eqb c HBAR.
Proof. unfold doublewide; simpl. apply orb_false_r. Qed.

Lemma unicode_aware_len_from (s : pystr) :
  forall a,
    fold_left (fun length c => if doublewide c then length + 2 else length + 1) s a
    = a + len s + count_doublewide s.
Proof.
  unfold len, count_doublewide.
  induction s as [|c s IH]; intros a; simpl.
  - lia.
  - rewrite IH. destruct (doublewide c); simpl List.length; lia.
Qed.

Lemma unicode_aware_len_eq (s : pystr) :
  unicode_aware_len s = len s + count_doublewide s.
Proof. unfold unicode_aware_len. rewrite unicode_aware_len_from. lia. Qed.

Lemma unicode_aware_len_app (s t : pystr) :
  unicode_aware_len (s ++ t) = unicode_aware_len s + unicode_aware_len t.
Proof.
  rewrite !unicode_aware_len_eq. unfold len, count_doublewide.
  rewrite filter_app, !length_app. lia.
Qed.

Lemma count_doublewide_occ (s : pystr) :
  count_doublewide s = Z.of_nat (count_occ N.eq_dec s HBAR).
Proof.
  unfold count_doublewide. f_equal.
  induction s as [|c s IH]; simpl; [reflexivity|].
  rewrite doublewide_spec.
  destruct (N.eq_dec c HBAR) as [->|Hne].
  - rewrite N.eqb_refl. simpl. now rewrite IH.
  - apply N.eqb_neq in Hne. rewrite Hne. exact IH.
Qed.

(** C8: for every string of [m] codepoints of which [n] are double-width
    (occurrences of the horizontal bar, the one element of
    DOUBLEWIDE_CHARS), [unicode_aware_len] returns [m + n]; it is a total
    function and its result is never negative. *)
Theorem unicode_aware_len_counts (s : pystr) :
  unicode_aware_len s = len s + count_doublewide s
  /\ count_doublewide s = Z.of_nat (count_occ N.eq_dec s HBAR)
  /\ 0 <= unicode_aware_len s.
Proof.
  split; [apply unicode_aware_len_eq|].
  split; [apply count_doublewide_occ|].
  rewrite unicode_aware_len_eq. unfold len, count_doublewide. lia.
Qed.

(** ** The ruby parser *)

Lemma markup_false (c : codepoint) :
  markup c = false -> N.eqb c LT = false /\ N.eqb c BAR = false /\ N.eqb c GT = false.
Proof.
  unfold markup. intros H.
  apply orb_false_iff in H as [H HG]. apply orb_false_iff in H as [HL HB].
  auto.
Qed.

(** A character outside the annotation syntax is kept exactly when the scan
    is outside a ruby group or before its midline. *)
Lemma strip_step_plain (line : pystr) (st : strip_state) (c : codepoint) :
  markup c = false ->
  strip_step line st c
  = Ok (if negb (sr_processing_ruby st) || negb (sr_seen_midline st)
        then mkStrip (sr_ret st ++ [c]) (sr_processing_ruby st) (sr_seen_midline st)
        else st).
Proof.
  intros H. apply markup_false in H as (HL & HB & HG).
  unfold strip_step. rewrite HL, HB, HG.
  destruct (negb (sr_processing_ruby st) || negb (sr_seen_midline st)); reflexivity.
Qed.

(** Over annotation-free text the scan copies every character, while it is
    outside a ruby group or in a base segment. *)
Lemma strip_for_each_free (line cs : pystr) :
  annotation_free cs = true ->
  forall ret pr sm,
    negb pr || negb sm = true ->
    for_each (strip_step line) (mkStrip ret pr sm) cs = Ok (mkStrip (ret ++ cs) pr sm).
Proof.
  induction cs as [|c cs IH]; intros Hfree ret pr sm Hkeep; simpl.
  - now rewrite app_nil_r.
  - simpl in Hfree. apply andb_true_iff in Hfree as [Hc Hcs].
    apply negb_true_iff in Hc.
    rewrite strip_step_plain by exact Hc. simpl. rewrite Hkeep.
    rewrite (IH Hcs _ _ _ Hkeep). now rewrite <- app_assoc.
Qed.

(** No character of the annotation syntax is ever copied to the output. *)
Lemma strip_step_ret_free (line : pystr) (st st' : strip_state) (c : codepoint) :
  strip_step line st c = Ok st' ->
  annotation_free (sr_ret st) = true ->
  annotation_free (sr_ret st') = true.
Proof.
  unfold strip_step, assert, bind.
  destruct (N.eqb c LT) eqn:HL.
  { destruct (negb (sr_processing_ruby st)); [|discriminate].
    intros [= <-]; auto. }
  destruct (N.eqb c BAR) eqn:HB.
  { destruct (sr_processing_ruby st); [|discriminate].
    intros [= <-]; auto. }
  destruct (N.eqb c GT) eqn:HG.
  { destruct (sr_processing_ruby st); [|discriminate].
    destruct (sr_seen_midline st); [|discriminate].
    intros [= <-]; auto. }
  destruct (negb (sr_processing_ruby st) || negb (sr_seen_midline st)).
  - intros [= <-] Hret; simpl. unfold annotation_free in *.
    rewrite forallb_app, Hret. simpl. unfold markup.
    now rewrite HL, HB, HG.
  - intros [= <-]; auto.
Qed.

Lemma strip_for_each_ret_free (line cs : pystr) :
  forall st st',
    for_each (strip_step line) st cs = Ok st' ->
    annotation_free (sr_ret st) = true ->
    annotation_free (sr_ret st') = true.
Proof.
  induction cs as [|c cs IH]; intros st st'; simpl.
  - intros [= <-]; auto.
  - destruct (strip_step line st c) as [st1|e] eqn:Hstep; [|discriminate].
    intros Hrest Hret. eapply IH; [exact Hrest|].
    eapply strip_step_ret_free; eassumption.
Qed.

Lemma remove_ruby_text_free (line : pystr) :
  annotation_free line = true -> remove_ruby_text line = Ok line.
Proof.
  intros H. unfold remove_ruby_text, strip_scan, strip_init.
  now rewrite (strip_for_each_free line line H [] false false eq_refl).
Qed.

Lemma remove_ruby_text_result_free (line r : pystr) :
  remove_ruby_text line = Ok r -> annotation_free r = true.
Proof.
  unfold remove_ruby_text, strip_scan, bind.
  destruct (for_each (strip_step line) strip_init line) as [st|e] eqn:Hscan;
    [|discriminate].
  intros [= <-]. eapply strip_for_each_ret_free; [exact Hscan | reflexivity].
Qed.

(** [remove_ruby_text] raises nothing but an [AssertionError]. *)
Lemma remove_ruby_text_raise (line : pystr) (e : exn) :
  remove_ruby_text line = Raise e -> exists msg, e = AssertionError msg.
Proof.
  unfold remove_ruby_text, strip_scan, bind.
  destruct (for_each (strip_step line) strip_init line) as [st|e'] eqn:Hscan;
    [discriminate|].
  intros [= <-]. revert Hscan.
  apply for_each_raise with (P := fun e => exists msg, e = AssertionError msg).
  intros st c e. unfold strip_step, assert, bind.
  repeat match goal with
         | |- context [if ?b then _ else _] => destruct b
         end; try discriminate; intros [= <-]; eauto.
Qed.

Lemma noruby_len_total (line : pystr) : noruby_len line = Ok (noruby_width line).
Proof.
  unfold noruby_len, noruby_width.
  destruct (remove_ruby_text line) as [s|e] eqn:H; [reflexivity|].
  apply remove_ruby_text_raise in H as [msg ->]. reflexivity.
Qed.

(** C9: [remove_ruby_text] is idempotent.  A line that is annotation-free
    (no ['<'], ['|'] or ['>']), or that is itself the result of a
    successful [remove_ruby_text], is returned unchanged. *)
Theorem remove_ruby_text_idempotent (line : pystr) :
  annotation_free line = true \/ (exists l0, remove_ruby_text l0 = Ok line) ->
  remove_ruby_text line = Ok line.
Proof.
  intros [Hfree | [l0 Hl0]].
  - now apply remove_ruby_text_free.
  - apply remove_ruby_text_free. eapply remove_ruby_text_result_free; eassumption.
Qed.

Lemma remove_ruby_text_idempotent_witness :
  remove_ruby_text (of_string "plain text") = Ok (of_string "plain text")
  /\ remove_ruby_text (of_string "xaby") = Ok (of_string "xaby").
Proof.
  split.
  - apply remove_ruby_text_idempotent. left. reflexivity.
  - apply remove_ruby_text_idempotent. right.
    exists (of_string "x<ab|cd>y"). reflexivity.
Defined.

(** An unmatched ['<'] followed by annotation-free text: the scan ends
    inside the base segment and nothing is asserted at the end of the line. *)
Lemma remove_ruby_text_open (pre post : pystr) (st : strip_state) :
  strip_scan (pre ++ LT :: post) pre = Ok st ->
  sr_processing_ruby st = false ->
  annotation_free post = true ->
  remove_ruby_text (pre ++ LT :: post) = Ok (sr_ret st ++ post).
Proof.
  intros Hpre Hout Hpost.
  unfold remove_ruby_text, strip_scan in *.
  rewrite for_each_app, Hpre. simpl.
  unfold strip_step at 1. simpl. rewrite Hout. simpl.
  now rewrite (strip_for_each_free _ post Hpost (sr_ret st) true false eq_refl).
Qed.

(** C3 (as the code has it): a line with an unmatched ['<'] that is followed
    by no ['<'], ['|'] or ['>'], after a prefix that strips without error and
    ends outside a ruby group, does not make [remove_ruby_text] raise: the
    result is the stripped prefix followed by the rest of the line, only the
    ['<'] dropped.  [noruby_len] does not raise either, prints nothing and
    returns the width of that stripped text.  On a line [l] where
    [remove_ruby_text] does raise, [noruby_len] returns the width of the raw
    line. *)
Theorem noruby_len_unmatched_start
    (pre post : pystr) (st : strip_state) (l : pystr) (e : exn) :
  strip_scan (pre ++ LT :: post) pre = Ok st ->
  sr_processing_ruby st = false ->
  annotation_free post = true ->
  remove_ruby_text l = Raise e ->
  remove_ruby_text (pre ++ LT :: post) = Ok (sr_ret st ++ post)
  /\ noruby_len (pre ++ LT :: post) = Ok (unicode_aware_len (sr_ret st ++ post))
  /\ noruby_len_stdout (pre ++ LT :: post) = []
  /\ (exists msg, e = AssertionError msg /\ noruby_len_stdout l = [msg])
  /\ noruby_len l = Ok (unicode_aware_len l).
Proof.
  intros Hpre Hout Hpost Hl.
  pose proof (remove_ruby_text_open pre post st Hpre Hout Hpost) as Hopen.
  split; [exact Hopen|].
  unfold noruby_len, noruby_len_stdout. rewrite Hopen.
  split; [reflexivity|]. split; [reflexivity|].
  destruct (remove_ruby_text_raise l e Hl) as [msg ->].
  rewrite Hl. split; [exists msg; split; reflexivity | reflexivity].
Qed.

Lemma noruby_len_unmatched_start_witness :
  remove_ruby_text (of_string "x<ab|cd>y<z") = Ok (of_string "xabyz")
  /\ noruby_len (of_string "x<ab|cd>y<z") = Ok 5
  /\ noruby_len (of_string "a<b<c") = Ok 5.
Proof.
  destruct (noruby_len_unmatched_start
              (of_string "x<ab|cd>y") (of_string "z")
              (mkStrip (of_string "xaby") false true)
              (of_string "a<b<c") (AssertionError msg_repeated_start)
              eq_refl eq_refl eq_refl eq_refl)
    as (H1 & H2 & _ & _ & H3).
  split; [exact H1|]. split; [exact H2 | exact H3].
Defined.

(** C3 does not hold as stated: on ["a<b"], whose ['<'] is unmatched and is
    followed by no ['|'] and no ['>'], [remove_ruby_text] returns ["ab"]
    instead of raising, and [noruby_len] returns 2, not the raw width 3. *)
Lemma unmatched_start_not_raised :
  existsb (N.eqb LT) (of_string "a<b") = true
  /\ annotation_free (of_string "b") = true
  /\ remove_ruby_text (of_string "a<b") = Ok (of_string "ab")
  /\ noruby_len (of_string "a<b") = Ok 2
  /\ unicode_aware_len (of_string "a<b") = 3.
Proof. repeat split. Qed.

(** ** The control-code expander *)

(** Inside a control code with no pending ['%'], the characters of a code
    name accumulate in [cc_acc]. *)
Lemma cc_scan_code_name (text code : pystr) :
  code_name code = true ->
  forall out acc0,
    cc_scan text (mkCC out false true acc0) code
    = Ok (mkCC out false true (acc0 ++ code)).
Proof.
  unfold cc_scan.
  induction code as [|c code IH]; intros Hname out acc0; simpl.
  - now rewrite app_nil_r.
  - simpl in Hname. apply andb_true_iff in Hname as [Hc Hcode].
    apply andb_true_iff in Hc as [Hp Hr].
    apply negb_true_iff in Hp, Hr.
    unfold cc_step at 1. simpl. rewrite Hp, Hr.
    rewrite (IH Hcode). now rewrite <- app_assoc.
Qed.

(** A whole marker [%{code}], wherever the scan meets it: the ['%'] sets
    [has_pct] and the ['{'] after it opens a code in every state. *)
Lemma cc_scan_marker (text code rest : pystr) (st : cc_state) :
  code_name code = true ->
  cc_scan text st (PCT :: LBRACE :: code ++ RBRACE :: rest)
  = if str_eqb code (of_string "n")
    then cc_scan text (mkCC (cc_processed_line st ++ [NL]) false false code) rest
    else if str_eqb code (of_string "s")
    then cc_scan text (mkCC (cc_processed_line st ++ [SP]) false false code) rest
    else Raise (AssertionError (msg_unhandled code text)).
Proof.
  intros Hname. unfold cc_scan. simpl for_each.
  change (for_each (cc_step text) (mkCC (cc_processed_line st) false true [])
                   (code ++ RBRACE :: rest))
    with (cc_scan text (mkCC (cc_processed_line st) false true [])
                  (code ++ RBRACE :: rest)).
  unfold cc_scan. rewrite for_each_app.
  pose proof (cc_scan_code_name text code Hname (cc_processed_line st) []) as Hacc.
  unfold cc_scan in Hacc. rewrite Hacc. simpl.
  unfold cc_step at 1. simpl.
  destruct (str_eqb code (of_string "n")); [reflexivity|].
  destruct (str_eqb code (of_string "s")); reflexivity.
Qed.

(** C7: a marker [%{n}] adds a newline to the output and [%{s}] a space,
    whatever the scan's state when it meets the marker, and a marker with
    any other code name raises the assertion naming the code and the text
    (a ['}'] met in a code closes it on the accumulated name: [n], [s], or
    the assertion); a character met in the normal state (no pending ['%'],
    not in a code) is copied to the output as it is, unless it is the ['%']
    that may open a code; and [apply_control_codes("a%{n}b%{s}c")] is
    ["a\nb c"]. *)
Theorem apply_control_codes_markers
    (text code rest out acc : pystr) (st : cc_state) (b : bool) (c : codepoint) :
  code_name code = true ->
  cc_scan text st (of_string "%{n}" ++ rest)
  = cc_scan text (mkCC (cc_processed_line st ++ [NL]) false false (of_string "n")) rest
  /\ cc_scan text st (of_string "%{s}" ++ rest)
     = cc_scan text (mkCC (cc_processed_line st ++ [SP]) false false (of_string "s")) rest
  /\ (str_eqb code (of_string "n") = false ->
      str_eqb code (of_string "s") = false ->
      cc_scan text st (PCT :: LBRACE :: code ++ RBRACE :: rest)
      = Raise (AssertionError (msg_unhandled code text)))
  /\ cc_step text (mkCC out b true acc) RBRACE
     = (if str_eqb acc (of_string "n") then Ok (mkCC (out ++ [NL]) b false acc)
        else if str_eqb acc (of_string "s") then Ok (mkCC (out ++ [SP]) b false acc)
        else Raise (AssertionError (msg_unhandled acc text)))
  /\ cc_step text (mkCC out false false acc) c
     = Ok (if N.eqb c PCT then mkCC out true false acc
           else mkCC (out ++ [c]) false false acc)
  /\ apply_control_codes (of_string "a%{n}b%{s}c")
     = Ok (of_string "a" ++ [NL] ++ of_string "b c").
Proof.
  intros Hname.
  split; [apply (cc_scan_marker text (of_string "n") rest st eq_refl)|].
  split; [apply (cc_scan_marker text (of_string "s") rest st eq_refl)|].
  split.
  { intros Hn Hs. rewrite cc_scan_marker by exact Hname. now rewrite Hn, Hs. }
  split.
  { unfold cc_step. simpl. now rewrite andb_false_r. }
  split; [|reflexivity].
  unfold cc_step. simpl. destruct (N.eqb c PCT); reflexivity.
Qed.

Lemma apply_control_codes_markers_witness :
  apply_control_codes (of_string "%{i}")
  = Raise (AssertionError (of_string "Unhandled control code 'i' in line '%{i}'")).
Proof.
  destruct (apply_control_codes_markers
              (of_string "%{i}") (of_string "i") [] [] [] cc_init false 97%N eq_refl)
    as (_ & _ & Hraise & _).
  unfold apply_control_codes.
  change (of_string "%{i}") with (PCT :: LBRACE :: of_string "i" ++ [RBRACE]) at 2.
  rewrite (Hraise eq_refl eq_refl). reflexivity.
Defined.

(** C4 fails on the code: the flag [has_pct] is cleared only where a ['{']
    opens a code.  After a ['%'] and a character that is neither ['%'] nor
    ['{'], met in the normal state, the character is in the output and
    [has_pct] is still set, so a later ['{'] opens a control code:
    [apply_control_codes("%a{n}")] is ["a\n"], where the claim has
    ["a{n}"]. *)
Theorem pending_percent_survives (text out acc : pystr) (c : codepoint) :
  cc_scan text (mkCC out false false acc) [PCT; c]
  = Ok (if N.eqb c PCT then mkCC out true false acc
        else if N.eqb c LBRACE then mkCC out false true []
        else mkCC (out ++ [c]) true false acc)
  /\ cc_scan (of_string "%a{n}") cc_init (of_string "%a")
     = Ok (mkCC (of_string "a") true false [])
  /\ apply_control_codes (of_string "%a{n}") = Ok (of_string "a" ++ [NL])
  /\ apply_control_codes (of_string "%a{n}") <> Ok (of_string "a{n}").
Proof.
  split; [|repeat split; discriminate].
  unfold cc_scan. simpl. unfold cc_step. simpl.
  destruct (N.eqb c PCT); [reflexivity|].
  destruct (N.eqb c LBRACE); reflexivity.
Qed.

(** ** The word segmenter *)

(** C2 fails on the code: the flush condition is
    [c == ' ' or (c == '\n' and not processing_ruby)], so a space flushes
    the accumulator in every state, inside a ruby group too, and
    [ruby_aware_split_words("<a b|c>")] is the two units ["<a"] and
    ["b|c>"]: a unit boundary strictly inside the annotation. *)
Theorem space_flushes_inside_ruby (line : pystr) (ret : list pystr) (acc : pystr) :
  split_step line (mkSplit ret acc true) SP = Ok (mkSplit (ret ++ [acc]) [] true)
  /\ ruby_aware_split_words (of_string "<a b|c>")
     = Ok [of_string "<a"; of_string "b|c>"].
Proof. split; reflexivity. Qed.

(** ** The line wrapper *)

Lemma map_noruby_len (ws : list pystr) :
  map_result noruby_len ws = Ok (map noruby_width ws).
Proof.
  induction ws as [|w ws IH]; simpl.
  - reflexivity.
  - now rewrite noruby_len_total, IH.
Qed.

Lemma fold_max_ge (xs : list Z) :
  forall a, a <= fold_left Z.max xs a
            /\ forall x, In x xs -> x <= fold_left Z.max xs a.
Proof.
  induction xs as [|y xs IH]; intros a; simpl.
  - split; [lia | intros x []].
  - destruct (IH (Z.max a y)) as [Ha Hin]. split; [lia|].
    intros x [<- | Hx]; [lia | auto].
Qed.

Lemma py_max_ge (xs : list Z) (m x : Z) :
  py_max xs = Ok m -> In x xs -> x <= m.
Proof.
  destruct xs as [|y xs]; simpl; [discriminate|].
  intros [= <-]. destruct (fold_max_ge xs y) as [Hy Hin].
  intros [<- | Hx]; auto.
Qed.

Lemma py_max_nonempty (xs : list Z) (x : Z) :
  In x xs -> exists m, py_max xs = Ok m.
Proof. destruct xs as [|y xs]; [intros [] | simpl; eauto]. Qed.

(** C6: when the segmentation of the line has a word unit whose
    ruby-stripped width, as [noruby_len] measures it, exceeds
    [max_linelen], [linebreak_text] returns the line unchanged, whatever the
    cursor (the fast path returns the line as well). *)
Theorem linebreak_text_unbreakable
    (line : pystr) (max_linelen start_cursor_pos : Z)
    (ws : list pystr) (w : pystr) (n : Z) :
  ruby_aware_split_words line = Ok ws ->
  In w ws ->
  noruby_len w = Ok n ->
  max_linelen < n ->
  linebreak_text line max_linelen start_cursor_pos = Ok line.
Proof.
  intros Hsplit Hin Hn Hlt.
  rewrite noruby_len_total in Hn. injection Hn as <-.
  unfold linebreak_text. rewrite noruby_len_total. simpl.
  destruct (noruby_width line + start_cursor_pos <? max_linelen); [reflexivity|].
  rewrite Hsplit. simpl. rewrite map_noruby_len. simpl.
  assert (Hin' : In (noruby_width w) (map noruby_width ws)) by now apply in_map.
  destruct (py_max_nonempty _ _ Hin') as [m Hm]. rewrite Hm. simpl.
  pose proof (py_max_ge _ _ _ Hm Hin') as Hle.
  assert (Hlt' : (max_linelen <? m) = true) by (apply Z.ltb_lt; lia).
  now rewrite Hlt'.
Qed.

(** A line of 100 ['x'] with [max_linelen = 10] is returned unchanged. *)
Lemma linebreak_text_unbreakable_witness :
  linebreak_text (repeat 120%N 100) 10 0 = Ok (repeat 120%N 100).
Proof.
  apply (linebreak_text_unbreakable
           (repeat 120%N 100) 10 0 [repeat 120%N 100] (repeat 120%N 100) 100).
  - vm_compute. reflexivity.
  - left. reflexivity.
  - vm_compute. reflexivity.
  - lia.
Defined.

(** C10: on the empty line with [start_cursor_pos >= max_linelen] the fast
    path is not taken, the segmentation is the empty list and [max] of no
    widths raises [ValueError]: the call returns no string. *)
Theorem linebreak_text_empty_raises (max_linelen start_cursor_pos : Z) :
  max_linelen <= start_cursor_pos ->
  ruby_aware_split_words [] = Ok []
  /\ linebreak_text [] max_linelen start_cursor_pos = Raise ValueError.
Proof.
  intros Hge. split; [reflexivity|].
  unfold linebreak_text. simpl.
  assert (H : (start_cursor_pos <? max_linelen) = false) by (apply Z.ltb_ge; lia).
  now rewrite H.
Qed.

Lemma linebreak_text_empty_raises_witness :
  linebreak_text [] 55 55 = Raise ValueError.
Proof.
  apply (linebreak_text_empty_raises 55 55). lia.
Defined.

(** C5 fails on the code: the overflow test is
    [len(acc + ' ' + word) + start_cursor_pos > max_linelen] for every word,
    the first of a line included.  A first word that fills the line exactly
    ([len(word) + start_cursor_pos = max_linelen]) makes the test true: the
    empty accumulator is flushed as a line and the word starts the next one.
    So [linebreak_text("abc de", 3)] is ["\nabc\nde"], with an empty first
    line. *)
Theorem first_word_test_counts_space (word : pystr) (start_cursor_pos : Z) :
  wrap_step (len word + start_cursor_pos) (mkWrap [] [] start_cursor_pos true) word
  = mkWrap [[]] (if negb (str_eqb word [NL]) then word else []) 0 true
  /\ linebreak_text (of_string "abc de") 3 0
     = Ok ([NL] ++ of_string "abc" ++ [NL] ++ of_string "de").
Proof.
  split; [|vm_compute; reflexivity].
  unfold wrap_step. cbn [w_acc w_start_cursor_pos w_broken_lines w_first_word].
  rewrite !len_app.
  assert (H : (len [] + (len [SP] + len word) + start_cursor_pos
               >? len word + start_cursor_pos) = true).
  { apply Z.gtb_lt. change (len []) with 0. change (len [SP]) with 1. lia. }
  rewrite H. reflexivity.
Qed.

(** C1 fails on the code: the packing loop measures with [len], one column
    per codepoint, where the fast path and the unbreakable check measure with
    [noruby_len].  On ["―― ― aaaaa"] with [max_linelen = 5] no word is wider
    than 5, the line is re-broken, and its first output line ["―― ―"] has
    measured width 7. *)
Theorem packed_line_exceeds_width :
  ruby_aware_split_words ([HBAR; HBAR; SP; HBAR; SP] ++ of_string "aaaaa")
  = Ok [[HBAR; HBAR]; [HBAR]; of_string "aaaaa"]
  /\ map noruby_width [[HBAR; HBAR]; [HBAR]; of_string "aaaaa"] = [4; 2; 5]
  /\ pack_lines [[HBAR; HBAR]; [HBAR]; of_string "aaaaa"] 5 0
     = Ok [[HBAR; HBAR; SP; HBAR]; of_string "aaaaa"]
  /\ linebreak_text ([HBAR; HBAR; SP; HBAR; SP] ++ of_string "aaaaa") 5 0
     = Ok ([HBAR; HBAR; SP; HBAR] ++ [NL] ++ of_string "aaaaa")
  /\ unicode_aware_len [HBAR; HBAR; SP; HBAR] = 7
  /\ noruby_len [HBAR; HBAR; SP; HBAR] = Ok 7.
Proof. repeat split; vm_compute; reflexivity. Qed.

(** ** The width bound of the packing loop *)

Lemma unicode_aware_len_narrow (s : pystr) :
  narrow s = true -> unicode_aware_len s = len s.
Proof.
  intros H. rewrite unicode_aware_len_eq.
  assert (Hc : count_doublewide s = 0); [|lia].
  unfold count_doublewide.
  induction s as [|c s IH]; simpl in *; [reflexivity|].
  apply andb_true_iff in H as [Hc Hs]. apply negb_true_iff in Hc.
  rewrite Hc. auto.
Qed.

Lemma unicode_aware_len_nonneg (s : pystr) : 0 <= unicode_aware_len s.
Proof. rewrite unicode_aware_len_eq. unfold len, count_doublewide. lia. Qed.

(** Stripping never widens: each step adds at most the character read. *)
Lemma strip_step_width (line : pystr) (st st' : strip_state) (c : codepoint) :
  strip_step line st c = Ok st' ->
  unicode_aware_len (sr_ret st')
  <= unicode_aware_len (sr_ret st) + unicode_aware_len [c].
Proof.
  pose proof (unicode_aware_len_nonneg [c]) as Hc.
  unfold strip_step, assert, bind.
  repeat match goal with
         | |- context [if ?b then _ else _] => destruct b
         end; try discriminate; intros [= <-]; simpl sr_ret;
    rewrite ?unicode_aware_len_app; lia.
Qed.

Lemma strip_for_each_width (line cs : pystr) :
  forall st st',
    for_each (strip_step line) st cs = Ok st' ->
    unicode_aware_len (sr_ret st')
    <= unicode_aware_len (sr_ret st) + unicode_aware_len cs.
Proof.
  induction cs as [|c cs IH]; intros st st'; simpl for_each.
  - intros [= <-]. pose proof (unicode_aware_len_nonneg []). lia.
  - destruct (strip_step line st c) as [st1|e] eqn:Hstep; [|discriminate].
    intros Hrest. apply IH in Hrest. apply strip_step_width in Hstep.
    change (c :: cs) with ([c] ++ cs). rewrite unicode_aware_len_app. lia.
Qed.

Lemma noruby_width_le (s : pystr) : noruby_width s <= unicode_aware_len s.
Proof.
  unfold noruby_width, remove_ruby_text, strip_scan, bind.
  destruct (for_each (strip_step s) strip_init s) as [st|e] eqn:Hscan; [|lia].
  apply strip_for_each_width in Hscan. simpl in Hscan.
  change (unicode_aware_len []) with 0 in Hscan. lia.
Qed.

Lemma noruby_width_nonneg (s : pystr) : 0 <= noruby_width s.
Proof.
  unfold noruby_width.
  destruct (remove_ruby_text s); apply unicode_aware_len_nonneg.
Qed.

Lemma narrow_app (s t : pystr) : narrow (s ++ t) = narrow s && narrow t.
Proof. apply forallb_app. Qed.

(** The words of a narrow line are narrow. *)
Lemma split_step_narrow (line : pystr) (st st' : split_state) (c : codepoint) :
  split_step line st c = Ok st' ->
  doublewide c = false ->
  forallb narrow (sp_ret st) = true -> narrow (sp_acc st) = true ->
  forallb narrow (sp_ret st') = true /\ narrow (sp_acc st') = true.
Proof.
  intros Hstep Hc Hret Hacc. revert Hstep.
  unfold split_step, assert, bind.
  repeat match goal with
         | |- context [if ?b then _ else _] => destruct b
         end; try discriminate; intros [= <-]; simpl;
    rewrite ?forallb_app, ?narrow_app, ?Hret, ?Hacc; simpl;
    rewrite ?Hacc, ?Hc; auto.
Qed.

Lemma split_for_each_narrow (line cs : pystr) :
  narrow cs = true ->
  forall st st',
    for_each (split_step line) st cs = Ok st' ->
    forallb narrow (sp_ret st) = true -> narrow (sp_acc st) = true ->
    forallb narrow (sp_ret st') = true /\ narrow (sp_acc st') = true.
Proof.
  induction cs as [|c cs IH]; intros Hcs st st'; simpl for_each.
  - intros [= <-]; auto.
  - simpl in Hcs. apply andb_true_iff in Hcs as [Hc Hcs'].
    apply negb_true_iff in Hc.
    destruct (split_step line st c) as [st1|e] eqn:Hstep; [|discriminate].
    intros Hrest Hret Hacc.
    destruct (split_step_narrow _ _ _ _ Hstep Hc Hret Hacc) as [Hret1 Hacc1].
    eapply IH; eassumption.
Qed.

Lemma ruby_aware_split_words_narrow (line : pystr) (ws : list pystr) :
  narrow line = true ->
  ruby_aware_split_words line = Ok ws ->
  forallb narrow ws = true.
Proof.
  intros Hline. unfold ruby_aware_split_words, bind.
  destruct (for_each (split_step line) split_init line) as [st|e] eqn:Hscan;
    [|discriminate].
  destruct (split_for_each_narrow line line Hline _ _ Hscan eq_refl eq_refl)
    as [Hret Hacc].
  intros [= <-]. destruct (truthy (sp_acc st)); [|exact Hret].
  rewrite forallb_app, Hret. simpl. now rewrite Hacc.
Qed.

Lemma fold_max_in (xs : list Z) :
  forall a, fold_left Z.max xs a = a \/ In (fold_left Z.max xs a) xs.
Proof.
  induction xs as [|y xs IH]; intros a; simpl.
  - now left.
  - destruct (IH (Z.max a y)) as [H | H]; [|now right; right].
    rewrite H. destruct (Z.max_spec a y) as [[_ ->] | [_ ->]]; auto.
Qed.

Lemma py_max_in (xs : list Z) (m : Z) : py_max xs = Ok m -> In m xs.
Proof.
  destruct xs as [|y xs]; simpl; [discriminate|].
  intros [= <-]. destruct (fold_max_in xs y) as [-> | H]; auto.
Qed.

Section PackingLoop.

Variable max_linelen : Z.
Hypothesis max_nonneg : 0 <= max_linelen.

Lemma fits_empty : fits max_linelen [].
Proof. unfold fits. change (noruby_width []) with 0. exact max_nonneg. Qed.

(** A narrow string is at most as wide as it is long. *)
Lemma fits_len (s : pystr) :
  narrow s = true -> len s <= max_linelen -> fits max_linelen s.
Proof.
  intros Hn Hlen. unfold fits.
  pose proof (noruby_width_le s) as Hle.
  rewrite (unicode_aware_len_narrow s Hn) in Hle. lia.
Qed.

Lemma wrap_step_inv (st : wrap_state) (word : pystr) :
  wrap_inv max_linelen st ->
  fits max_linelen word -> narrow word = true ->
  wrap_inv max_linelen (wrap_step max_linelen st word).
Proof.
  intros (Hlines & Hacc & Hnarrow & Hcur) Hword Hwn.
  assert (Hflush : Forall (fits max_linelen)
                          (w_broken_lines st ++ [w_acc st])).
  { apply Forall_app. split; [exact Hlines | constructor; [exact Hacc | constructor]]. }
  unfold wrap_step, wrap_inv.
  destruct (len (w_acc st ++ [SP] ++ word) + w_start_cursor_pos st >? max_linelen)
    eqn:Hover.
  - cbn [w_broken_lines w_acc w_start_cursor_pos].
    destruct (negb (str_eqb word [NL]));
      (split; [exact Hflush|]); (split; [|split; [|lia]]);
      auto using fits_empty.
  - destruct (str_eqb word [NL]).
    + cbn [w_broken_lines w_acc w_start_cursor_pos].
      split; [exact Hflush|]. split; [apply fits_empty|]. split; [reflexivity | lia].
    + cbn [w_broken_lines w_acc w_start_cursor_pos].
      split; [exact Hlines|].
      destruct (negb (w_first_word st)); [|auto].
      assert (Hn : narrow (w_acc st ++ [SP] ++ word) = true).
      { rewrite !narrow_app, Hnarrow, Hwn. reflexivity. }
      split; [|split; assumption].
      apply fits_len; [exact Hn|].
      assert (Hle : len (w_acc st ++ [SP] ++ word) + w_start_cursor_pos st
                    <= max_linelen).
      { destruct (Z.gtb_spec (len (w_acc st ++ [SP] ++ word) + w_start_cursor_pos st)
                             max_linelen); [discriminate | assumption]. }
      lia.
Qed.

Lemma wrap_fold_inv (ws : list pystr) :
  Forall (fits max_linelen) ws -> forallb narrow ws = true ->
  forall st, wrap_inv max_linelen st ->
             wrap_inv max_linelen (fold_left (wrap_step max_linelen) ws st).
Proof.
  induction ws as [|w ws IH]; intros Hfit Hnarrow st Hinv; simpl.
  - exact Hinv.
  - inversion Hfit as [|? ? Hw Hws]; subst.
    simpl in Hnarrow. apply andb_true_iff in Hnarrow as [Hwn Hwsn].
    apply IH; auto using wrap_step_inv.
Qed.

(** Every line the packing of narrow, fitting words flushes is within
    the width, and the packing raises nothing. *)
Lemma pack_lines_fit (ws : list pystr) (start_cursor_pos : Z) :
  ws <> [] -> 0 <= start_cursor_pos ->
  Forall (fits max_linelen) ws -> forallb narrow ws = true ->
  exists ls, pack_lines ws max_linelen start_cursor_pos = Ok ls
             /\ Forall (fits max_linelen) ls.
Proof.
  intros Hne Hcur Hfit Hnarrow. unfold pack_lines.
  assert (Hinit : wrap_inv max_linelen (mkWrap [] [] start_cursor_pos true)).
  { unfold wrap_inv. simpl. split; [constructor|]. split; [apply fits_empty|].
    split; [reflexivity | exact Hcur]. }
  pose proof (wrap_fold_inv ws Hfit Hnarrow _ Hinit) as (Hlines & Hacc & _ & _).
  set (st := fold_left (wrap_step max_linelen) ws _) in *.
  assert (Hflush : Forall (fits max_linelen) (w_broken_lines st ++ [w_acc st])).
  { apply Forall_app. split; [exact Hlines | constructor; [exact Hacc | constructor]]. }
  destruct (truthy (w_acc st)); simpl.
  - eauto.
  - unfold py_last. destruct (rev ws) as [|x xs] eqn:Hrev.
    + apply (f_equal (@rev pystr)) in Hrev. rewrite rev_involutive in Hrev.
      contradiction.
    + simpl. destruct (str_eqb x [NL]); eauto.
Qed.

End PackingLoop.

(** Where [len] and the measured width agree: on a line with no
    double-width codepoint and a cursor that is not negative, whose
    segmentation succeeds with at least one unit, [linebreak_text] either
    returns the line unchanged (fast path, or a unit wider than
    [max_linelen]) or returns the join of packed lines that each measure at
    most [max_linelen]. *)
Theorem linebreak_text_narrow_fits
    (line : pystr) (max_linelen start_cursor_pos : Z) (ws : list pystr) :
  narrow line = true ->
  0 <= start_cursor_pos ->
  ruby_aware_split_words line = Ok ws ->
  ws <> [] ->
  ((noruby_width line + start_cursor_pos < max_linelen
    \/ exists w, In w ws /\ max_linelen < noruby_width w)
   /\ linebreak_text line max_linelen start_cursor_pos = Ok line)
  \/ (exists ls,
        pack_lines ws max_linelen start_cursor_pos = Ok ls
        /\ linebreak_text line max_linelen start_cursor_pos = Ok (join [NL] ls)
        /\ Forall (fits max_linelen) ls).
Proof.
  intros Hnarrow Hcur Hsplit Hne.
  unfold linebreak_text. rewrite noruby_len_total. simpl.
  destruct (Z.ltb_spec (noruby_width line + start_cursor_pos) max_linelen)
    as [Hfast | Hslow]; [left; auto|].
  rewrite Hsplit. simpl. rewrite map_noruby_len. simpl.
  destruct ws as [|w0 ws0]; [contradiction|].
  set (ws := w0 :: ws0) in *.
  destruct (py_max_nonempty (map noruby_width ws) (noruby_width w0)) as [m Hm];
    [now left|].
  rewrite Hm. simpl.
  destruct (Z.ltb_spec max_linelen m) as [Hlong | Hshort].
  - left. split; [right | reflexivity].
    apply py_max_in in Hm. apply in_map_iff in Hm as (w & Hwm & Hw).
    exists w. split; [exact Hw | lia].
  - right.
    assert (Hfit : Forall (fits max_linelen) ws).
    { apply Forall_forall. intros w Hw. unfold fits.
      pose proof (py_max_ge _ _ _ Hm (in_map noruby_width _ _ Hw)). lia. }
    assert (Hmax : 0 <= max_linelen).
    { pose proof (noruby_width_nonneg w0).
      pose proof (py_max_ge _ _ (noruby_width w0) Hm (or_introl eq_refl)). lia. }
    destruct (pack_lines_fit max_linelen Hmax ws start_cursor_pos Hne Hcur Hfit
                (ruby_aware_split_words_narrow line ws Hnarrow Hsplit))
      as (ls & Hpack & Hls).
    exists ls. rewrite Hpack. simpl. auto.
Qed.

Lemma linebreak_text_narrow_fits_witness :
  exists ls,
    linebreak_text (of_string "a b c d") 3 0 = Ok (join [NL] ls)
    /\ Forall (fits 3) ls.
Proof.
  destruct (linebreak_text_narrow_fits
              (of_string "a b c d") 3 0
              [of_string "a"; of_string "b"; of_string "c"; of_string "d"]
              eq_refl ltac:(lia) eq_refl ltac:(discriminate))
    as [[_ Hsame] | (ls & _ & Hout & Hfit)].
  - vm_compute in Hsame. discriminate.
  - exists ls. split; assumption.
Defined.

(** ** Further properties of the width calculator *)

Lemma count_doublewide_narrow (s : pystr) :
  count_doublewide s = 0 <-> narrow s = true.
Proof.
  unfold count_doublewide, narrow.
  induction s as [|c s IH]; simpl; [tauto|].
  destruct (doublewide c); simpl.
  - split; [lia | discriminate].
  - exact IH.
Qed.

(** The width of a string lies between its length and twice its length,
    equals the length exactly when no codepoint is double-width, and is
    additive over concatenation. *)
Theorem unicode_aware_len_bounds (s t : pystr) :
  len s <= unicode_aware_len s <= 2 * len s
  /\ (unicode_aware_len s = len s <-> narrow s = true)
  /\ unicode_aware_len (s ++ t) = unicode_aware_len s + unicode_aware_len t.
Proof.
  split; [|split; [|apply unicode_aware_len_app]].
  - rewrite unicode_aware_len_eq. unfold len, count_doublewide.
    pose proof (filter_length_le doublewide s). lia.
  - rewrite <- count_doublewide_narrow, unicode_aware_len_eq. lia.
Qed.

(** [noruby_len] never raises, whatever the line: its result is a width
    between 0 and the raw width of the line (stripping never widens). *)
Theorem noruby_len_never_raises (line : pystr) :
  exists n, noruby_len line = Ok n /\ 0 <= n <= unicode_aware_len line.
Proof.
  exists (noruby_width line). split; [apply noruby_len_total|].
  split; [apply noruby_width_nonneg | apply noruby_width_le].
Qed.

(** ** Further properties of the ruby parser *)

(** The line named in the messages does not decide whether a step succeeds. *)
Lemma strip_step_ok_line (l l' : pystr) (st st' : strip_state) (c : codepoint) :
  strip_step l st c = Ok st' -> strip_step l' st c = Ok st'.
Proof.
  unfold strip_step, assert, bind.
  repeat match goal with
         | |- context [if ?b then _ else _] => destruct b
         end; try discriminate; auto.
Qed.

Lemma strip_for_each_ok_line (l l' cs : pystr) :
  forall st st',
    for_each (strip_step l) st cs = Ok st' -> for_each (strip_step l') st cs = Ok st'.
Proof.
  induction cs as [|c cs IH]; intros st st'; simpl; [auto|].
  destruct (strip_step l st c) as [st1|e] eqn:Hstep; [|discriminate].
  rewrite (strip_step_ok_line l l' _ _ _ Hstep). apply IH.
Qed.

(** A step from shifted variables: the output so far is a prefix that the
    step never reads, and [seen_midline] is read only inside a ruby group. *)
Lemma strip_step_shift (l l' ret0 : pystr) (st st' : strip_state) (c : codepoint) (sm : bool) :
  strip_step l st c = Ok st' ->
  (sr_processing_ruby st = true -> sm = sr_seen_midline st) ->
  exists sm',
    strip_step l' (mkStrip (ret0 ++ sr_ret st) (sr_processing_ruby st) sm) c
    = Ok (mkStrip (ret0 ++ sr_ret st') (sr_processing_ruby st') sm')
    /\ (sr_processing_ruby st' = true -> sm' = sr_seen_midline st').
Proof.
  destruct st as [ret pr smv]. unfold strip_step, assert, bind. simpl.
  destruct (N.eqb c LT).
  { destruct pr; simpl; [discriminate|]. intros [= <-] _. simpl. eauto. }
  destruct (N.eqb c BAR).
  { destruct pr; simpl; [|discriminate]. intros [= <-] _. simpl. eauto. }
  destruct (N.eqb c GT).
  { destruct pr; simpl; [|discriminate].
    intros H Hsm. rewrite (Hsm eq_refl).
    destruct smv; simpl in *; [|discriminate].
    injection H as <-. simpl. eauto. }
  destruct pr; simpl.
  - intros H Hsm. rewrite (Hsm eq_refl).
    destruct smv; simpl in *; injection H as <-; simpl;
      rewrite ?app_assoc; eauto.
  - intros [= <-] _. simpl. rewrite app_assoc. exists sm. split; [reflexivity|discriminate].
Qed.

Lemma strip_for_each_shift (l l' ret0 cs : pystr) :
  forall (st st' : strip_state) (sm : bool),
    for_each (strip_step l) st cs = Ok st' ->
    (sr_processing_ruby st = true -> sm = sr_seen_midline st) ->
    exists sm',
      for_each (strip_step l') (mkStrip (ret0 ++ sr_ret st) (sr_processing_ruby st) sm) cs
      = Ok (mkStrip (ret0 ++ sr_ret st') (sr_processing_ruby st') sm')
      /\ (sr_processing_ruby st' = true -> sm' = sr_seen_midline st').
Proof.
  induction cs as [|c cs IH]; intros st st' sm; simpl for_each.
  - intros [= <-] Hsm. eauto.
  - destruct (strip_step l st c) as [st1|e] eqn:Hstep; [|discriminate].
    intros Hrest Hsm.
    destruct (strip_step_shift l l' ret0 st st1 c sm Hstep Hsm) as (sm1 & -> & Hsm1).
    exact (IH st1 st' sm1 Hrest Hsm1).
Qed.

(** Two scans compose when the first one ends outside a ruby group. *)
Lemma strip_compose (la lb l cs1 cs2 : pystr) (st1 st2 : strip_state) :
  for_each (strip_step la) strip_init cs1 = Ok st1 ->
  sr_processing_ruby st1 = false ->
  for_each (strip_step lb) strip_init cs2 = Ok st2 ->
  exists sm,
    for_each (strip_step l) strip_init (cs1 ++ cs2)
    = Ok (mkStrip (sr_ret st1 ++ sr_ret st2) (sr_processing_ruby st2) sm).
Proof.
  intros H1 Hout H2.
  destruct (strip_for_each_shift la l [] cs1 strip_init st1 false H1 (fun _ => eq_refl))
    as (sm1 & H1' & _).
  simpl in H1'. change (mkStrip [] false false) with strip_init in H1'.
  rewrite for_each_app, H1'. simpl. rewrite Hout.
  destruct (strip_for_each_shift lb l (sr_ret st1) cs2 strip_init st2 sm1 H2)
    as (sm2 & H2' & _); [discriminate|].
  simpl in H2'. rewrite app_nil_r in H2'. eauto.
Qed.

Lemma for_each_cons {S A : Type} (body : S -> A -> result S) (st : S) (x : A) (xs : list A) :
  for_each body st (x :: xs) = (st' <- body st x ;; for_each body st' xs).
Proof. simpl. destruct (body st x); reflexivity. Qed.

(** Inside a reading segment nothing is kept, a further ['|'] included. *)
Lemma strip_for_each_reading (l ret cs : pystr) :
  reading_text cs = true ->
  for_each (strip_step l) (mkStrip ret true true) cs = Ok (mkStrip ret true true).
Proof.
  induction cs as [|c cs IH]; intros H; [reflexivity|].
  unfold reading_text, no_char in H. simpl in H.
  apply andb_true_iff in H as [HL HG].
  apply andb_true_iff in HL as [HcL HL]. apply andb_true_iff in HG as [HcG HG].
  apply negb_true_iff in HcL, HcG.
  assert (Hcs : reading_text cs = true).
  { unfold reading_text, no_char. now rewrite HL, HG. }
  rewrite for_each_cons.
  assert (Hstep : strip_step l (mkStrip ret true true) c = Ok (mkStrip ret true true)).
  { unfold strip_step. rewrite HcL, HcG. destruct (N.eqb c BAR); reflexivity. }
  rewrite Hstep. cbn [bind]. exact (IH Hcs).
Qed.

(** The scan of one annotation [<base|reading>]: the base is kept, the
    reading (which may hold further ['|']) and the delimiters are not. *)
Lemma strip_scan_annotation (l base reading : pystr) :
  annotation_free base = true ->
  reading_text reading = true ->
  for_each (strip_step l) strip_init (LT :: base ++ BAR :: reading ++ [GT])
  = Ok (mkStrip base false true).
Proof.
  intros Hbase Hread. rewrite for_each_cons.
  change (strip_step l strip_init LT) with (Ok (mkStrip [] true false)).
  cbn [bind]. rewrite for_each_app.
  rewrite (strip_for_each_free l base Hbase [] true false eq_refl).
  cbn [bind app]. rewrite for_each_cons.
  change (strip_step l (mkStrip base true false) BAR) with (Ok (mkStrip base true true)).
  cbn [bind]. rewrite for_each_app, (strip_for_each_reading l base reading Hread).
  reflexivity.
Qed.

Lemma remove_ruby_text_scan (line r : pystr) :
  remove_ruby_text line = Ok r ->
  exists st, strip_scan line line = Ok st /\ sr_ret st = r.
Proof.
  unfold remove_ruby_text, bind.
  destruct (strip_scan line line) as [st|e]; [|discriminate].
  intros [= <-]. eauto.
Qed.

(** The result of [remove_ruby_text] holds no ['<'], ['|'] or ['>'], and it
    is the line itself exactly when the line held none. *)
Theorem remove_ruby_text_strips_markup (line r : pystr) :
  remove_ruby_text line = Ok r ->
  annotation_free r = true /\ (r = line <-> annotation_free line = true).
Proof.
  intros H. pose proof (remove_ruby_text_result_free line r H) as Hfree.
  split; [exact Hfree|]. split.
  - intros <-. exact Hfree.
  - intros Hline. rewrite (remove_ruby_text_free line Hline) in H. congruence.
Qed.

Lemma remove_ruby_text_strips_markup_witness :
  annotation_free (of_string "xaby") = true.
Proof.
  apply (remove_ruby_text_strips_markup (of_string "x<ab|cd>y") (of_string "xaby")).
  reflexivity.
Defined.

(** Stripping distributes over concatenation at a point outside every ruby
    group: when the scan of [l1] succeeds and ends outside a ruby group and
    [l2] strips to [r2], the line [l1 ++ l2] strips to the stripped [l1]
    followed by [r2]. *)
Theorem remove_ruby_text_app (l1 l2 r2 : pystr) (st1 : strip_state) :
  strip_scan l1 l1 = Ok st1 ->
  sr_processing_ruby st1 = false ->
  remove_ruby_text l2 = Ok r2 ->
  remove_ruby_text l1 = Ok (sr_ret st1)
  /\ remove_ruby_text (l1 ++ l2) = Ok (sr_ret st1 ++ r2).
Proof.
  intros H1 Hout H2.
  split; [unfold remove_ruby_text; now rewrite H1|].
  apply remove_ruby_text_scan in H2 as (st2 & H2 & <-).
  destruct (strip_compose l1 l2 (l1 ++ l2) l1 l2 st1 st2 H1 Hout H2) as [sm Hc].
  unfold remove_ruby_text, strip_scan. now rewrite Hc.
Qed.

Lemma remove_ruby_text_app_witness :
  remove_ruby_text (of_string "<a|b> c" ++ of_string "d<e|f>")
  = Ok (of_string "a c" ++ of_string "de").
Proof.
  apply (remove_ruby_text_app (of_string "<a|b> c") (of_string "d<e|f>")
           (of_string "de") (mkStrip (of_string "a c") false true));
    reflexivity.
Defined.

(** A well-formed annotation [<base|reading>] met outside a ruby group is
    replaced by its base: after a prefix whose scan succeeds and ends outside
    a ruby group, and before a rest that strips to [rp], the line strips to
    the stripped prefix, the base and [rp].  The reading may hold any
    character but ['<'] and ['>'], a second ['|'] included. *)
Theorem remove_ruby_text_annotation
    (pre base reading post rp : pystr) (st : strip_state) :
  strip_scan pre pre = Ok st ->
  sr_processing_ruby st = false ->
  annotation_free base = true ->
  reading_text reading = true ->
  remove_ruby_text post = Ok rp ->
  remove_ruby_text (pre ++ LT :: base ++ BAR :: reading ++ GT :: post)
  = Ok (sr_ret st ++ base ++ rp).
Proof.
  intros Hpre Hout Hbase Hread Hpost.
  apply remove_ruby_text_scan in Hpost as (stp & Hpost & <-).
  pose proof (strip_scan_annotation pre base reading Hbase Hread) as Hann.
  destruct (strip_compose pre post pre _ post _ stp Hann eq_refl Hpost) as [sm1 H1].
  simpl sr_ret in H1.
  destruct (strip_compose pre pre
              (pre ++ LT :: base ++ BAR :: reading ++ GT :: post)
              pre _ st _ Hpre Hout H1) as [sm2 H2].
  simpl sr_ret in H2.
  unfold remove_ruby_text, strip_scan.
  replace (pre ++ LT :: base ++ BAR :: reading ++ GT :: post)
    with (pre ++ (LT :: base ++ BAR :: reading ++ [GT]) ++ post) at 2.
  - now rewrite H2.
  - simpl. rewrite <- app_assoc. simpl. rewrite <- app_assoc. reflexivity.
Qed.

Lemma remove_ruby_text_annotation_witness :
  remove_ruby_text (of_string "x<ab|c|d>y<e|f>") = Ok (of_string "xabye").
Proof.
  apply (remove_ruby_text_annotation
           (of_string "x") (of_string "ab") (of_string "c|d") (of_string "y<e|f>")
           (of_string "ye") (mkStrip (of_string "x") false false));
    reflexivity.
Defined.

(** The four assertions of [remove_ruby_text], after a prefix [pre] whose
    scan succeeds: a ['<'] inside a ruby group, a ['|'] or a ['>'] outside
    one, and a ['>'] before the ['|'] of its group each raise an
    [AssertionError].  The message names the whole line, except for the
    repeated ['<'], whose message is a fixed text. *)
Theorem remove_ruby_text_raises (pre post : pystr) (st : strip_state) :
  strip_scan pre pre = Ok st ->
  (sr_processing_ruby st = true ->
   remove_ruby_text (pre ++ LT :: post) = Raise (AssertionError msg_repeated_start))
  /\ (sr_processing_ruby st = false ->
      remove_ruby_text (pre ++ BAR :: post)
      = Raise (AssertionError (msg_delim_outside (pre ++ BAR :: post))))
  /\ (sr_processing_ruby st = false ->
      remove_ruby_text (pre ++ GT :: post)
      = Raise (AssertionError (msg_end_outside (pre ++ GT :: post))))
  /\ (sr_processing_ruby st = true -> sr_seen_midline st = false ->
      remove_ruby_text (pre ++ GT :: post)
      = Raise (AssertionError (msg_end_no_delim (pre ++ GT :: post)))).
Proof.
  intros Hpre.
  assert (Hscan : forall l, for_each (strip_step l) strip_init pre = Ok st)
    by (intros l; exact (strip_for_each_ok_line pre l pre _ _ Hpre)).
  unfold remove_ruby_text, strip_scan.
  repeat split; intros; rewrite for_each_app, Hscan; cbn [bind];
    rewrite for_each_cons; unfold strip_step; simpl;
    repeat match goal with H : _ = _ |- _ => rewrite H end; reflexivity.
Qed.

Lemma remove_ruby_text_raises_witness :
  remove_ruby_text (of_string "<a<") = Raise (AssertionError msg_repeated_start)
  /\ remove_ruby_text (of_string "<a>")
     = Raise (AssertionError (msg_end_no_delim (of_string "<a>")))
  /\ remove_ruby_text (of_string "a|")
     = Raise (AssertionError (msg_delim_outside (of_string "a|")))
  /\ remove_ruby_text (of_string "a>b")
     = Raise (AssertionError (msg_end_outside (of_string "a>b"))).
Proof.
  destruct (remove_ruby_text_raises (of_string "<a") [] (mkStrip (of_string "a") true false)
              eq_refl) as (H1 & _ & _ & H4).
  destruct (remove_ruby_text_raises (of_string "a") [] (mkStrip (of_string "a") false false)
              eq_refl) as (_ & H2 & _ & _).
  destruct (remove_ruby_text_raises (of_string "a") (of_string "b")
              (mkStrip (of_string "a") false false) eq_refl) as (_ & _ & H3 & _).
  split; [exact (H1 eq_refl)|]. split; [exact (H4 eq_refl eq_refl)|].
  split; [exact (H2 eq_refl) | exact (H3 eq_refl)].
Defined.

(** ** Further properties of the word segmenter *)

Lemma join_snoc (sep y : pystr) (xs : list pystr) :
  xs <> [] -> join sep (xs ++ [y]) = join sep xs ++ sep ++ y.
Proof.
  induction xs as [|x xs IH]; intros Hne; [contradiction|].
  destruct xs as [|x' xs]; [reflexivity|].
  change (join sep ((x :: x' :: xs) ++ [y]))
    with (x ++ sep ++ join sep ((x' :: xs) ++ [y])).
  rewrite IH by discriminate.
  change (join sep (x :: x' :: xs)) with (x ++ sep ++ join sep (x' :: xs)).
  now rewrite <- !app_assoc.
Qed.

Lemma join_last_app (sep y z : pystr) (xs : list pystr) :
  join sep (xs ++ [y ++ z]) = join sep (xs ++ [y]) ++ z.
Proof.
  destruct xs as [|x xs]; [reflexivity|].
  rewrite !join_snoc by discriminate. now rewrite <- !app_assoc.
Qed.

(** What a successful step does to the units: a space flushes the
    accumulator, a newline outside a ruby group flushes it and adds the
    newline unit, any other character joins the accumulator. *)
Lemma split_step_ok (line : pystr) (st st' : split_state) (c : codepoint) :
  split_step line st c = Ok st' ->
  (c = SP /\ sp_ret st' = sp_ret st ++ [sp_acc st] /\ sp_acc st' = [])
  \/ (c = NL /\ sp_processing_ruby st' = false
      /\ sp_ret st' = sp_ret st ++ [sp_acc st] ++ [[NL]] /\ sp_acc st' = [])
  \/ (c <> SP /\ (c = NL -> sp_processing_ruby st' = true)
      /\ sp_ret st' = sp_ret st /\ sp_acc st' = sp_acc st ++ [c]).
Proof.
  destruct st as [ret acc pr]. unfold split_step, assert, bind. simpl.
  destruct (N.eqb_spec c SP) as [->|Hsp]; [simpl; intros [= <-]; left; auto|].
  destruct (N.eqb_spec c LT) as [->|Hlt].
  { destruct pr; simpl; [discriminate|]. intros [= <-]. right; right. simpl.
    split; [discriminate|]. split; [reflexivity|]. split; reflexivity. }
  destruct (N.eqb_spec c GT) as [->|Hgt].
  { destruct pr; simpl; [|discriminate]. intros [= <-]. right; right. simpl.
    split; [discriminate|]. split; [discriminate|]. split; reflexivity. }
  destruct (N.eqb_spec c NL) as [->|Hnl].
  { destruct pr; simpl; intros [= <-]; simpl.
    - right; right. split; [discriminate|]. split; [reflexivity|]. split; reflexivity.
    - right; left. rewrite <- app_assoc. auto. }
  simpl. intros [= <-]. right; right. simpl.
  split; [exact Hsp|]. split; [intros E; contradiction|]. split; reflexivity.
Qed.

Lemma split_for_each_concat (line cs : pystr) :
  forall st st',
    for_each (split_step line) st cs = Ok st' ->
    List.concat (sp_ret st') ++ sp_acc st'
    = (List.concat (sp_ret st) ++ sp_acc st) ++ filter (fun c => negb (N.eqb c SP)) cs.
Proof.
  induction cs as [|c cs IH]; intros st st'; simpl for_each.
  - intros [= <-]. simpl. now rewrite app_nil_r.
  - destruct (split_step line st c) as [st1|e] eqn:Hstep; [|discriminate].
    intros Hrest. rewrite (IH _ _ Hrest). simpl filter.
    destruct (split_step_ok _ _ _ _ Hstep)
      as [(-> & -> & ->) | [(-> & _ & -> & ->) | (Hsp & _ & -> & ->)]].
    + simpl. rewrite List.concat_app. simpl. now rewrite !app_nil_r.
    + simpl. rewrite !List.concat_app. simpl. now rewrite !app_nil_r, <- !app_assoc.
    + apply N.eqb_neq in Hsp. rewrite Hsp. simpl. now rewrite <- !app_assoc.
Qed.

Lemma ruby_aware_split_words_concat (line : pystr) (ws : list pystr) :
  ruby_aware_split_words line = Ok ws ->
  List.concat ws = filter (fun c => negb (N.eqb c SP)) line.
Proof.
  unfold ruby_aware_split_words, bind.
  destruct (for_each (split_step line) split_init line) as [st|e] eqn:Hscan;
    [|discriminate].
  intros [= <-]. apply split_for_each_concat in Hscan. simpl in Hscan.
  rewrite <- Hscan. destruct (sp_acc st); simpl.
  - now rewrite app_nil_r.
  - rewrite List.concat_app. simpl. now rewrite app_nil_r.
Qed.

(** Segmentation loses nothing but spaces: the units of a line, put end to
    end, are the line with its spaces removed. *)
Theorem split_words_concat (line : pystr) (ws : list pystr) :
  ruby_aware_split_words line = Ok ws ->
  List.concat ws = filter (fun c => negb (N.eqb c SP)) line.
Proof. exact (ruby_aware_split_words_concat line ws). Qed.

Lemma split_words_concat_witness :
  List.concat [of_string "<a"; of_string "b|c>"; [NL]; of_string "d"]
  = filter (fun c => negb (N.eqb c SP)) (of_string "<a b|c>" ++ [NL] ++ of_string "d").
Proof.
  apply (split_words_concat (of_string "<a b|c>" ++ [NL] ++ of_string "d")).
  reflexivity.
Defined.

Lemma no_char_app (c0 : codepoint) (s t : pystr) :
  no_char c0 (s ++ t) = no_char c0 s && no_char c0 t.
Proof. apply forallb_app. Qed.

Lemma split_for_each_no_space (line cs : pystr) :
  forall st st',
    for_each (split_step line) st cs = Ok st' ->
    forallb (no_char SP) (sp_ret st) = true -> no_char SP (sp_acc st) = true ->
    forallb (no_char SP) (sp_ret st') = true /\ no_char SP (sp_acc st') = true.
Proof.
  induction cs as [|c cs IH]; intros st st'; simpl for_each.
  - intros [= <-]; auto.
  - destruct (split_step line st c) as [st1|e] eqn:Hstep; [|discriminate].
    intros Hrest Hret Hacc.
    assert (H1 : forallb (no_char SP) (sp_ret st1) = true
                 /\ no_char SP (sp_acc st1) = true).
    { destruct (split_step_ok _ _ _ _ Hstep)
        as [(_ & Hr & Ha) | [(_ & _ & Hr & Ha) | (Hsp & _ & Hr & Ha)]];
        rewrite Hr, Ha.
      - rewrite forallb_app, Hret. simpl. now rewrite Hacc.
      - rewrite !forallb_app, Hret. simpl. now rewrite Hacc.
      - split; [exact Hret|]. rewrite no_char_app, Hacc.
        unfold no_char. simpl. apply N.eqb_neq in Hsp. now rewrite Hsp. }
    destruct H1 as [Hret1 Hacc1]. exact (IH _ _ Hrest Hret1 Hacc1).
Qed.

(** After at least one character the scan holds a unit: a flushed one or a
    non-empty accumulator. *)
Lemma split_for_each_nonempty (line cs : pystr) :
  forall st st',
    for_each (split_step line) st cs = Ok st' ->
    (cs <> [] \/ sp_ret st <> [] \/ sp_acc st <> []) ->
    sp_ret st' <> [] \/ sp_acc st' <> [].
Proof.
  induction cs as [|c cs IH]; intros st st'; simpl for_each.
  - intros [= <-] [H | H]; [contradiction | exact H].
  - destruct (split_step line st c) as [st1|e] eqn:Hstep; [|discriminate].
    intros Hrest _. apply (IH _ _ Hrest). right.
    destruct (split_step_ok _ _ _ _ Hstep)
      as [(_ & Hr & _) | [(_ & _ & Hr & _) | (_ & _ & _ & Ha)]].
    + left. rewrite Hr. now destruct (sp_ret st).
    + left. rewrite Hr. now destruct (sp_ret st).
    + right. rewrite Ha. now destruct (sp_acc st).
Qed.

Lemma ruby_aware_split_words_nil (line : pystr) :
  ruby_aware_split_words line = Ok [] -> line = [].
Proof.
  unfold ruby_aware_split_words, bind.
  destruct (for_each (split_step line) split_init line) as [st|e] eqn:Hscan;
    [|discriminate].
  intros [= Hws]. destruct line as [|c line]; [reflexivity|]. exfalso.
  destruct (split_for_each_nonempty _ _ _ _ Hscan) as [H | H];
    [left; discriminate | |].
  - destruct (truthy (sp_acc st)); [|contradiction].
    now destruct (sp_ret st).
  - destruct (sp_acc st); [contradiction|]. simpl in Hws.
    now destruct (sp_ret st).
Qed.

(** The shape of the units: no unit holds a space (a space always ends the
    unit, inside a ruby group as well), and the list of units is empty
    only for the empty line. *)
Theorem split_words_units (line : pystr) (ws : list pystr) :
  ruby_aware_split_words line = Ok ws ->
  forallb (no_char SP) ws = true /\ (ws = [] <-> line = []).
Proof.
  unfold ruby_aware_split_words, bind.
  destruct (for_each (split_step line) split_init line) as [st|e] eqn:Hscan;
    [|discriminate].
  intros [= <-]. split.
  - destruct (split_for_each_no_space _ _ _ _ Hscan eq_refl eq_refl) as [Hret Hacc].
    destruct (truthy (sp_acc st)); [|exact Hret].
    rewrite forallb_app, Hret. simpl. now rewrite Hacc.
  - split.
    + intros Hws. apply ruby_aware_split_words_nil.
      unfold ruby_aware_split_words. rewrite Hscan. simpl. now rewrite Hws.
    + intros ->. simpl in Hscan. injection Hscan as <-. reflexivity.
Qed.

Lemma split_words_units_witness :
  forallb (no_char SP) [of_string "a"; []; of_string "b"] = true.
Proof.
  apply (split_words_units (of_string "a  b") [of_string "a"; []; of_string "b"]).
  reflexivity.
Defined.

Lemma split_for_each_join (line cs : pystr) :
  no_char NL cs = true ->
  forall st st',
    for_each (split_step line) st cs = Ok st' ->
    join [SP] (sp_ret st' ++ [sp_acc st'])
    = join [SP] (sp_ret st ++ [sp_acc st]) ++ cs.
Proof.
  induction cs as [|c cs IH]; intros Hnl st st'; simpl for_each.
  - intros [= <-]. now rewrite app_nil_r.
  - destruct (split_step line st c) as [st1|e] eqn:Hstep; [|discriminate].
    unfold no_char in Hnl. simpl in Hnl. apply andb_true_iff in Hnl as [Hc Hcs].
    apply negb_true_iff, N.eqb_neq in Hc.
    intros Hrest. rewrite (IH Hcs _ _ Hrest).
    destruct (split_step_ok _ _ _ _ Hstep)
      as [(-> & Hr & Ha) | [(E & _) | (_ & _ & Hr & Ha)]];
      [| contradiction |]; rewrite Hr, Ha.
    + rewrite join_snoc by (now destruct (sp_ret st)).
      simpl. now rewrite <- !app_assoc.
    + rewrite join_last_app. now rewrite <- !app_assoc.
Qed.

Lemma ruby_aware_split_words_join (l : pystr) (c : codepoint) (ws : list pystr) :
  no_char NL (l ++ [c]) = true ->
  ruby_aware_split_words (l ++ [c]) = Ok ws ->
  join [SP] ws ++ (if N.eqb c SP then [SP] else []) = l ++ [c]
  /\ (c <> SP -> exists ws0 w, ws = ws0 ++ [w ++ [c]]).
Proof.
  intros Hnl. unfold ruby_aware_split_words, bind.
  destruct (for_each (split_step (l ++ [c])) split_init (l ++ [c])) as [st|e] eqn:Hscan;
    [|discriminate].
  intros [= <-].
  pose proof (split_for_each_join _ _ Hnl _ _ Hscan) as Hjoin. simpl in Hjoin.
  rewrite for_each_app in Hscan.
  destruct (for_each (split_step (l ++ [c])) split_init l) as [st0|e]; [|discriminate].
  cbn [bind] in Hscan. rewrite for_each_cons in Hscan.
  destruct (split_step (l ++ [c]) st0 c) as [st1|e] eqn:Hstep; [|discriminate].
  cbn [bind for_each] in Hscan. injection Hscan as <-.
  rewrite no_char_app in Hnl. apply andb_true_iff in Hnl as [_ Hc].
  unfold no_char in Hc. simpl in Hc. rewrite andb_true_r in Hc.
  apply negb_true_iff, N.eqb_neq in Hc.
  destruct (split_step_ok _ _ _ _ Hstep)
    as [(-> & Hr & Ha) | [(E & _) | (Hsp & _ & Hr & Ha)]]; [| contradiction |].
  - split; [|intros E; contradiction].
    rewrite Ha in *. simpl truthy. cbv iota.
    rewrite N.eqb_refl. rewrite <- Hjoin.
    rewrite join_snoc; [reflexivity|]. rewrite Hr. now destruct (sp_ret st0).
  - assert (Ht : truthy (sp_acc st1) = true)
      by (rewrite Ha; now destruct (sp_acc st0)).
    rewrite Ht. split.
    + apply N.eqb_neq in Hsp. rewrite Hsp, app_nil_r. exact Hjoin.
    + intros _. exists (sp_ret st1), (sp_acc st0). now rewrite Ha.
Qed.

(** On a line without newline, joining the units with single spaces gives
    the line back, up to one trailing space: a final space of the line
    closes the last unit and is not part of any. *)
Theorem split_words_join (l : pystr) (c : codepoint) (ws : list pystr) :
  no_char NL (l ++ [c]) = true ->
  ruby_aware_split_words (l ++ [c]) = Ok ws ->
  join [SP] ws ++ (if N.eqb c SP then [SP] else []) = l ++ [c].
Proof.
  intros Hnl Hsplit. exact (proj1 (ruby_aware_split_words_join l c ws Hnl Hsplit)).
Qed.

Lemma split_words_join_witness :
  join [SP] [of_string "<a"; of_string "b|c>"; []; of_string "d"]
    ++ (if N.eqb SP SP then [SP] else [])
  = of_string "<a b|c>  d" ++ [SP].
Proof.
  apply (split_words_join (of_string "<a b|c>  d") SP); reflexivity.
Defined.

Lemma split_for_each_ruby_free (line cs : pystr) :
  ruby_free cs = true ->
  forall st, sp_processing_ruby st = false ->
             exists st', for_each (split_step line) st cs = Ok st'
                         /\ sp_processing_ruby st' = false.
Proof.
  unfold ruby_free, no_char.
  induction cs as [|c cs IH]; intros Hfree st Hpr; simpl for_each; [eauto|].
  simpl in Hfree. apply andb_true_iff in Hfree as [HL HG].
  apply andb_true_iff in HL as [HcL HL]. apply andb_true_iff in HG as [HcG HG].
  apply negb_true_iff in HcL, HcG.
  assert (Hstep : exists st1, split_step line st c = Ok st1
                              /\ sp_processing_ruby st1 = false).
  { unfold split_step, assert, bind. rewrite HcL, HcG, Hpr. simpl.
    destruct (N.eqb c SP || N.eqb c NL && true); eauto. }
  destruct Hstep as (st1 & -> & Hpr1).
  apply IH; [now rewrite HL, HG | exact Hpr1].
Qed.

Lemma ruby_aware_split_words_raise (line : pystr) (e : exn) :
  ruby_aware_split_words line = Raise e -> exists msg, e = AssertionError msg.
Proof.
  unfold ruby_aware_split_words, bind.
  destruct (for_each (split_step line) split_init line) as [st|e'] eqn:Hscan;
    [discriminate|].
  intros [= <-]. revert Hscan.
  apply for_each_raise with (P := fun e => exists msg, e = AssertionError msg).
  intros st c e. unfold split_step, assert, bind.
  repeat match goal with
         | |- context [if ?b then _ else _] => destruct b
         end; try discriminate; intros [= <-]; eauto.
Qed.

(** [ruby_aware_split_words] raises nothing but an [AssertionError], and
    only on a line that holds a ['<'] or a ['>']. *)
Theorem split_words_raises (line : pystr) (e : exn) :
  ruby_aware_split_words line = Raise e ->
  (exists msg, e = AssertionError msg) /\ ruby_free line = false.
Proof.
  intros H. split; [exact (ruby_aware_split_words_raise line e H)|].
  destruct (ruby_free line) eqn:Hfree; [|reflexivity].
  destruct (split_for_each_ruby_free line line Hfree split_init eq_refl)
    as (st & Hok & _).
  unfold ruby_aware_split_words in H. rewrite Hok in H. discriminate.
Qed.

Lemma split_words_raises_witness :
  ruby_free (of_string "a>b") = false.
Proof.
  apply (split_words_raises (of_string "a>b")
           (AssertionError (msg_split_end_no_start (of_string "a>b")))).
  reflexivity.
Defined.

(** The two scanners track [processing_ruby] alike, and the assertions of
    the segmenter are among those of the parser. *)
Lemma strip_split_step (l l' : pystr) (st st1 : strip_state) (sst : split_state)
    (c : codepoint) :
  strip_step l st c = Ok st1 ->
  sp_processing_ruby sst = sr_processing_ruby st ->
  exists sst1, split_step l' sst c = Ok sst1
               /\ sp_processing_ruby sst1 = sr_processing_ruby st1.
Proof.
  destruct st as [ret pr sm], sst as [sret sacc spr]. simpl. intros Hstep ->.
  revert Hstep. unfold strip_step, split_step, assert, bind. simpl.
  destruct (N.eqb_spec c LT) as [->|Hlt].
  { destruct pr; simpl; [discriminate|]. intros [= <-]. simpl. eauto. }
  destruct (N.eqb_spec c BAR) as [->|Hbar].
  { destruct pr; simpl; [|discriminate]. intros [= <-]. simpl. eauto. }
  destruct (N.eqb_spec c GT) as [->|Hgt].
  { destruct pr; simpl; [|discriminate].
    destruct sm; simpl; [|discriminate]. intros [= <-]. simpl. eauto. }
  intros Hok.
  assert (Hpr : sr_processing_ruby st1 = pr).
  { destruct (negb pr || negb sm); injection Hok as <-; reflexivity. }
  rewrite Hpr.
  destruct (N.eqb c SP || N.eqb c NL && negb pr); simpl; eauto.
Qed.

(** Every line that [remove_ruby_text] accepts is segmented without
    error. *)
Theorem split_words_accepts_stripped (line r : pystr) :
  remove_ruby_text line = Ok r ->
  exists ws, ruby_aware_split_words line = Ok ws.
Proof.
  intros H. apply remove_ruby_text_scan in H as (st & Hscan & _).
  unfold strip_scan in Hscan.
  assert (Hsim : forall cs s1 s2 ss1,
             for_each (strip_step line) s1 cs = Ok s2 ->
             sp_processing_ruby ss1 = sr_processing_ruby s1 ->
             exists ss2, for_each (split_step line) ss1 cs = Ok ss2).
  { induction cs as [|c cs IH]; intros s1 s2 ss1; simpl for_each; [eauto|].
    destruct (strip_step line s1 c) as [s1'|e] eqn:Hstep; [|discriminate].
    intros Hrest Hpr.
    destruct (strip_split_step line line _ _ ss1 c Hstep Hpr) as (ss1' & -> & Hpr').
    exact (IH _ _ _ Hrest Hpr'). }
  destruct (Hsim line strip_init st split_init Hscan eq_refl) as [ss Hss].
  unfold ruby_aware_split_words. rewrite Hss. simpl. eauto.
Qed.

Lemma split_words_accepts_stripped_witness :
  exists ws, ruby_aware_split_words (of_string "x<ab|cd>y") = Ok ws.
Proof.
  apply (split_words_accepts_stripped (of_string "x<ab|cd>y") (of_string "xaby")).
  reflexivity.
Defined.

(** ** Further properties of the control-code expander *)

Lemma cc_scan_no_percent (text cs : pystr) :
  no_char PCT cs = true ->
  forall out acc,
    cc_scan text (mkCC out false false acc) cs = Ok (mkCC (out ++ cs) false false acc).
Proof.
  unfold cc_scan, no_char.
  induction cs as [|c cs IH]; intros H out acc; simpl for_each.
  - now rewrite app_nil_r.
  - simpl in H. apply andb_true_iff in H as [Hc Hcs]. apply negb_true_iff in Hc.
    unfold cc_step at 1. simpl. rewrite Hc.
    rewrite (IH Hcs). now rewrite <- app_assoc.
Qed.

(** A text without ['%'] is returned as it is, whatever else it holds
    (braces included), and nothing is raised. *)
Theorem apply_control_codes_no_percent (text : pystr) :
  no_char PCT text = true -> apply_control_codes text = Ok text.
Proof.
  intros H. unfold apply_control_codes, cc_init.
  now rewrite (cc_scan_no_percent text text H [] []).
Qed.

Lemma apply_control_codes_no_percent_witness :
  apply_control_codes (of_string "a{n} b}") = Ok (of_string "a{n} b}").
Proof.
  apply apply_control_codes_no_percent. reflexivity.
Defined.

Lemma cc_step_no_percent (text : pystr) (st st' : cc_state) (c : codepoint) :
  cc_step text st c = Ok st' ->
  no_char PCT (cc_processed_line st) = true ->
  no_char PCT (cc_processed_line st') = true.
Proof.
  unfold cc_step.
  destruct (N.eqb c PCT) eqn:Hc; [intros [= <-]; auto|].
  repeat match goal with
         | |- context [if ?b then _ else _] => destruct b
         end; try discriminate; intros [= <-]; simpl; auto;
    intros H; rewrite no_char_app, H; unfold no_char; simpl;
    rewrite ?Hc; reflexivity.
Qed.

Lemma cc_scan_out_no_percent (text cs : pystr) :
  forall st st',
    cc_scan text st cs = Ok st' ->
    no_char PCT (cc_processed_line st) = true ->
    no_char PCT (cc_processed_line st') = true.
Proof.
  unfold cc_scan.
  induction cs as [|c cs IH]; intros st st'; simpl for_each.
  - intros [= <-]; auto.
  - destruct (cc_step text st c) as [st1|e] eqn:Hstep; [|discriminate].
    intros Hrest H. apply (IH _ _ Hrest). eapply cc_step_no_percent; eassumption.
Qed.

(** The output of [apply_control_codes] never holds a ['%'] (every ['%']
    of the text is consumed, whether or not a code follows), and the output
    is the text itself exactly when the text holds none. *)
Theorem apply_control_codes_consumes_percent (text out : pystr) :
  apply_control_codes text = Ok out ->
  no_char PCT out = true /\ (out = text <-> no_char PCT text = true).
Proof.
  intros H.
  assert (Hout : no_char PCT out = true).
  { revert H. unfold apply_control_codes, bind.
    destruct (cc_scan text cc_init text) as [st|e] eqn:Hscan; [|discriminate].
    intros [= <-]. eapply cc_scan_out_no_percent; [exact Hscan | reflexivity]. }
  split; [exact Hout|]. split.
  - intros <-. exact Hout.
  - intros Htext. unfold apply_control_codes, cc_init in H.
    rewrite (cc_scan_no_percent text text Htext [] []) in H. simpl in H. congruence.
Qed.

Lemma apply_control_codes_consumes_percent_witness :
  no_char PCT (of_string "50 off" ++ [NL]) = true.
Proof.
  apply (apply_control_codes_consumes_percent (of_string "50% off%{n}")).
  reflexivity.
Defined.

Lemma cc_step_ok_text (t t' : pystr) (st st' : cc_state) (c : codepoint) :
  cc_step t st c = Ok st' -> cc_step t' st c = Ok st'.
Proof.
  unfold cc_step.
  repeat match goal with
         | |- context [if ?b then _ else _] => destruct b
         end; try discriminate; auto.
Qed.

Lemma cc_scan_ok_text (t t' cs : pystr) :
  forall st st', cc_scan t st cs = Ok st' -> cc_scan t' st cs = Ok st'.
Proof.
  unfold cc_scan.
  induction cs as [|c cs IH]; intros st st'; simpl; [auto|].
  destruct (cc_step t st c) as [st1|e] eqn:Hstep; [|discriminate].
  rewrite (cc_step_ok_text t t' _ _ _ Hstep). apply IH.
Qed.

(** Nothing is checked at the end of the text: a control code that is
    opened and never closed, and a ['%'] that ends the text, are dropped
    without an error.  Where [apply_control_codes(pre)] is [out], so are
    [apply_control_codes(pre + "%{" + code)] and
    [apply_control_codes(pre + "%")]. *)
Theorem apply_control_codes_unterminated (pre code out : pystr) :
  apply_control_codes pre = Ok out ->
  code_name code = true ->
  apply_control_codes (pre ++ PCT :: LBRACE :: code) = Ok out
  /\ apply_control_codes (pre ++ [PCT]) = Ok out.
Proof.
  unfold apply_control_codes at 1. unfold bind.
  destruct (cc_scan pre cc_init pre) as [st|e] eqn:Hscan; [|discriminate].
  intros [= <-] Hname. split.
  - unfold apply_control_codes.
    pose proof (cc_scan_ok_text pre (pre ++ PCT :: LBRACE :: code) _ _ _ Hscan) as H.
    unfold cc_scan in *. rewrite for_each_app, H. cbn [bind].
    rewrite for_each_cons.
    change (cc_step (pre ++ PCT :: LBRACE :: code) st PCT)
      with (Ok (mkCC (cc_processed_line st) true (cc_in_cc st) (cc_acc st))).
    cbn [bind]. rewrite for_each_cons.
    change (cc_step (pre ++ PCT :: LBRACE :: code)
                    (mkCC (cc_processed_line st) true (cc_in_cc st) (cc_acc st)) LBRACE)
      with (Ok (mkCC (cc_processed_line st) false true [])).
    cbn [bind].
    pose proof (cc_scan_code_name (pre ++ PCT :: LBRACE :: code) code Hname
                  (cc_processed_line st) []) as Hc.
    unfold cc_scan in Hc. rewrite Hc. reflexivity.
  - unfold apply_control_codes.
    pose proof (cc_scan_ok_text pre (pre ++ [PCT]) _ _ _ Hscan) as H.
    unfold cc_scan in *. rewrite for_each_app, H. reflexivity.
Qed.

Lemma apply_control_codes_unterminated_witness :
  apply_control_codes (of_string "ab%{n") = Ok (of_string "ab")
  /\ apply_control_codes (of_string "ab%") = Ok (of_string "ab").
Proof.
  apply (apply_control_codes_unterminated (of_string "ab") (of_string "n") (of_string "ab"));
    reflexivity.
Defined.

Lemma cc_scan_no_rbrace (text cs : pystr) :
  no_char RBRACE cs = true ->
  forall st, exists st', cc_scan text st cs = Ok st'.
Proof.
  unfold cc_scan, no_char.
  induction cs as [|c cs IH]; intros H st; simpl for_each; [eauto|].
  simpl in H. apply andb_true_iff in H as [Hc Hcs]. apply negb_true_iff in Hc.
  assert (Hstep : exists st1, cc_step text st c = Ok st1).
  { unfold cc_step. rewrite Hc, andb_false_r.
    repeat match goal with
           | |- context [if ?b then _ else _] => destruct b
           end; eauto. }
  destruct Hstep as [st1 ->]. exact (IH Hcs st1).
Qed.

(** [apply_control_codes] raises only the assertion of an unhandled
    control code: the error names a closed code that is neither [n] nor
    [s] and the whole text, and it needs a ['}'] in the text. *)
Theorem apply_control_codes_raises (text : pystr) (e : exn) :
  apply_control_codes text = Raise e ->
  (exists code,
      e = AssertionError (msg_unhandled code text)
      /\ str_eqb code (of_string "n") = false
      /\ str_eqb code (of_string "s") = false)
  /\ no_char RBRACE text = false.
Proof.
  unfold apply_control_codes, bind.
  destruct (cc_scan text cc_init text) as [st|e'] eqn:Hscan; [discriminate|].
  intros [= <-]. split.
  - revert Hscan. unfold cc_scan.
    apply for_each_raise
      with (P := fun e => exists code,
                     e = AssertionError (msg_unhandled code text)
                     /\ str_eqb code (of_string "n") = false
                     /\ str_eqb code (of_string "s") = false).
    intros st c e. unfold cc_step.
    destruct (N.eqb c PCT); [discriminate|].
    destruct (cc_has_pct st && N.eqb c LBRACE); [discriminate|].
    destruct (cc_in_cc st && N.eqb c RBRACE).
    + destruct (str_eqb (cc_acc st) (of_string "n")) eqn:Hn; [discriminate|].
      destruct (str_eqb (cc_acc st) (of_string "s")) eqn:Hs; [discriminate|].
      intros [= <-]. eauto.
    + destruct (negb (cc_in_cc st)); discriminate.
  - destruct (no_char RBRACE text) eqn:Hfree; [|reflexivity].
    destruct (cc_scan_no_rbrace text text Hfree cc_init) as [st Hok]. congruence.
Qed.

Lemma apply_control_codes_raises_witness :
  no_char RBRACE (of_string "a%{i}b") = false.
Proof.
  apply (apply_control_codes_raises (of_string "a%{i}b")
           (AssertionError (msg_unhandled (of_string "i") (of_string "a%{i}b")))).
  reflexivity.
Defined.

(** ** Further properties of the line wrapper *)

(** The packing raises only on an empty list of units (the [IndexError] of
    [splitLine[-1]]), which [linebreak_text] never passes to it. *)
Lemma pack_lines_ok (ws : list pystr) (max_linelen start_cursor_pos : Z) :
  ws <> [] -> exists ls, pack_lines ws max_linelen start_cursor_pos = Ok ls.
Proof.
  intros Hne. unfold pack_lines.
  destruct (truthy (w_acc _)); simpl; [eauto|].
  unfold py_last. destruct (rev ws) as [|x xs] eqn:Hrev; simpl; [|eauto].
  apply (f_equal (@rev pystr)) in Hrev. rewrite rev_involutive in Hrev.
  contradiction.
Qed.

(** When [linebreak_text] raises, the line did not fit (the fast path was
    not taken) and either the line is empty and the error is the
    [ValueError] of [max] on no widths, or the error is the [AssertionError]
    that [ruby_aware_split_words] raised on the line.  It never raises an
    [IndexError]. *)
Theorem linebreak_text_raises
    (line : pystr) (max_linelen start_cursor_pos : Z) (e : exn) :
  linebreak_text line max_linelen start_cursor_pos = Raise e ->
  max_linelen <= noruby_width line + start_cursor_pos
  /\ ((e = ValueError /\ line = [])
      \/ (exists msg, e = AssertionError msg
                      /\ ruby_aware_split_words line = Raise e)).
Proof.
  unfold linebreak_text. rewrite noruby_len_total. cbn [bind].
  destruct (Z.ltb_spec (noruby_width line + start_cursor_pos) max_linelen)
    as [Hfast | Hslow]; [discriminate|].
  intros H. split; [exact Hslow|].
  destruct (ruby_aware_split_words line) as [ws|e'] eqn:Hsplit.
  - cbn [bind] in H. rewrite map_noruby_len in H. cbn [bind] in H.
    destruct ws as [|w ws].
    + simpl in H. injection H as <-. left.
      split; [reflexivity | exact (ruby_aware_split_words_nil line Hsplit)].
    + exfalso. simpl py_max in H. cbn [bind] in H.
      destruct (max_linelen <? _); [discriminate|].
      destruct (pack_lines_ok (w :: ws) max_linelen start_cursor_pos) as [ls Hls];
        [discriminate|].
      rewrite Hls in H. discriminate.
  - cbn [bind] in H. injection H as <-. right.
    destruct (ruby_aware_split_words_raise line e' Hsplit) as [msg ->]. eauto.
Qed.

Lemma linebreak_text_raises_witness :
  3 <= noruby_width (of_string "ab>cd") + 0
  /\ exists msg,
       ruby_aware_split_words (of_string "ab>cd") = Raise (AssertionError msg).
Proof.
  destruct (linebreak_text_raises
              (of_string "ab>cd") 3 0
              (AssertionError (msg_split_end_no_start (of_string "ab>cd"))) eq_refl)
    as [Hslow [[E _] | (msg & E & Hsplit)]].
  - discriminate E.
  - split; [exact Hslow|]. exists msg. rewrite <- E. exact Hsplit.
Defined.



Lemma str_eqb_nl (w : pystr) : no_char NL w = true -> str_eqb w [NL] = false.
Proof.
  intros H. destruct (str_eqb w [NL]) eqn:E; [|reflexivity].
  apply str_eqb_spec in E. subst w. discriminate.
Qed.

Lemma plain_word_parts (w : pystr) :
  plain_word w = true ->
  no_char SP w = true /\ no_char NL w = true
  /\ annotation_free w = true /\ narrow w = true.
Proof.
  unfold plain_word. intros H.
  apply andb_true_iff in H as [H Hn]. apply andb_true_iff in H as [H Ha].
  apply andb_true_iff in H as [Hs Hl]. auto.
Qed.

(** The characters of a plain word join the accumulator. *)
Lemma split_for_each_word (line w : pystr) :
  no_char SP w = true -> no_char NL w = true -> annotation_free w = true ->
  forall ret acc,
    for_each (split_step line) (mkSplit ret acc false) w
    = Ok (mkSplit ret (acc ++ w) false).
Proof.
  unfold no_char, annotation_free.
  induction w as [|c w IH]; intros Hs Hn Ha ret acc; simpl for_each.
  - now rewrite app_nil_r.
  - simpl in Hs, Hn, Ha.
    apply andb_true_iff in Hs as [Hcs Hs]. apply andb_true_iff in Hn as [Hcn Hn].
    apply andb_true_iff in Ha as [Hca Ha].
    apply negb_true_iff in Hcs, Hcn, Hca.
    apply markup_false in Hca as (HL & _ & HG).
    unfold split_step at 1. simpl. rewrite HL, HG. simpl. rewrite Hcs, Hcn. simpl.
    rewrite (IH Hs Hn Ha). now rewrite <- app_assoc.
Qed.

Lemma noruby_width_plain (w : pystr) :
  annotation_free w = true -> narrow w = true -> noruby_width w = len w.
Proof.
  intros Ha Hn. unfold noruby_width. rewrite (remove_ruby_text_free w Ha).
  exact (unicode_aware_len_narrow w Hn).
Qed.

Lemma len_nonneg (s : pystr) : 0 <= len s.
Proof. unfold len. lia. Qed.

(** A break taken on the first word of a line leaves [first_word] set, and
    the next word that fits then replaces the accumulator instead of joining
    it.  For two plain words [w1] and [w2]: when [w1] does not fit behind the
    cursor but the two fit together on a line, the result is an empty first
    line followed by [w2] alone; [w1] is not part of the output. *)
Theorem linebreak_text_replaces_first_word
    (w1 w2 : pystr) (max_linelen start_cursor_pos : Z) :
  plain_word w1 = true ->
  plain_word w2 = true ->
  w2 <> [] ->
  max_linelen < len w1 + 1 + start_cursor_pos ->
  len w1 + 1 + len w2 <= max_linelen ->
  linebreak_text (w1 ++ SP :: w2) max_linelen start_cursor_pos = Ok (NL :: w2).
Proof.
  intros Hp1 Hp2 Hne Hover Hfit.
  apply plain_word_parts in Hp1 as (Hs1 & Hn1 & Ha1 & Hw1).
  apply plain_word_parts in Hp2 as (Hs2 & Hn2 & Ha2 & Hw2).
  pose proof (len_nonneg w1) as L1. pose proof (len_nonneg w2) as L2.
  assert (Hline : noruby_width (w1 ++ SP :: w2) = len w1 + 1 + len w2).
  { rewrite noruby_width_plain.
    - rewrite len_app. change (SP :: w2) with ([SP] ++ w2). rewrite len_app.
      change (len [SP]) with 1. lia.
    - unfold annotation_free in *. rewrite forallb_app, Ha1. simpl. exact Ha2.
    - rewrite narrow_app, Hw1. simpl. exact Hw2. }
  assert (Hsplit : ruby_aware_split_words (w1 ++ SP :: w2) = Ok [w1; w2]).
  { unfold ruby_aware_split_words, split_init. rewrite for_each_app.
    rewrite (split_for_each_word _ w1 Hs1 Hn1 Ha1). cbn [bind app].
    rewrite for_each_cons.
    change (split_step (w1 ++ SP :: w2) (mkSplit [] w1 false) SP)
      with (Ok (mkSplit [w1] [] false)).
    cbn [bind]. rewrite (split_for_each_word _ w2 Hs2 Hn2 Ha2). cbn [bind app sp_acc sp_ret].
    destruct w2; [contradiction | reflexivity]. }
  unfold linebreak_text. rewrite noruby_len_total, Hline. cbn [bind].
  destruct (Z.ltb_spec (len w1 + 1 + len w2 + start_cursor_pos) max_linelen); [lia|].
  rewrite Hsplit. cbn [bind]. rewrite map_noruby_len. cbn [bind map py_max fold_left].
  rewrite !noruby_width_plain by assumption.
  destruct (Z.ltb_spec max_linelen (Z.max (len w1) (len w2))); [lia|].
  assert (Hstep1 : wrap_step max_linelen (mkWrap [] [] start_cursor_pos true) w1
                   = mkWrap [[]] w1 0 true).
  { unfold wrap_step. cbn [w_acc w_start_cursor_pos w_broken_lines w_first_word].
    rewrite !len_app. change (len []) with 0. change (len [SP]) with 1.
    destruct (Z.gtb_spec (0 + (1 + len w1) + start_cursor_pos) max_linelen); [|lia].
    now rewrite (str_eqb_nl w1 Hn1). }
  assert (Hstep2 : wrap_step max_linelen (mkWrap [[]] w1 0 true) w2
                   = mkWrap [[]] w2 0 false).
  { unfold wrap_step. cbn [w_acc w_start_cursor_pos w_broken_lines w_first_word].
    rewrite !len_app. change (len [SP]) with 1.
    destruct (Z.gtb_spec (len w1 + (1 + len w2) + 0) max_linelen); [lia|].
    now rewrite (str_eqb_nl w2 Hn2). }
  unfold pack_lines. cbn [fold_left]. rewrite Hstep1, Hstep2.
  cbn [w_acc w_broken_lines]. destruct w2; [contradiction | reflexivity].
Qed.

Lemma linebreak_text_replaces_first_word_witness :
  linebreak_text (of_string "ab c") 5 4 = Ok ([NL] ++ of_string "c").
Proof.
  apply (linebreak_text_replaces_first_word (of_string "ab") (of_string "c") 5 4);
    [reflexivity | reflexivity | discriminate | reflexivity | discriminate].
Defined.

Lemma unbreak_id (s : pystr) : no_char NL s = true -> unbreak s = s.
Proof.
  unfold no_char, unbreak. induction s as [|c s IH]; simpl; [reflexivity|].
  intros H. apply andb_true_iff in H as [Hc Hs]. apply negb_true_iff in Hc.
  now rewrite Hc, (IH Hs).
Qed.

Lemma unbreak_app (s t : pystr) : unbreak (s ++ t) = unbreak s ++ unbreak t.
Proof. apply map_app. Qed.

Lemma unbreak_join (ls : list pystr) :
  forallb (no_char NL) ls = true -> unbreak (join [NL] ls) = join [SP] ls.
Proof.
  induction ls as [|l ls IH]; [reflexivity|].
  intros H. simpl in H. apply andb_true_iff in H as [Hl Hls].
  destruct ls as [|l' ls]; [exact (unbreak_id l Hl)|].
  change (join [NL] (l :: l' :: ls)) with (l ++ [NL] ++ join [NL] (l' :: ls)).
  change (join [SP] (l :: l' :: ls)) with (l ++ [SP] ++ join [SP] (l' :: ls)).
  rewrite !unbreak_app, (IH Hls), (unbreak_id l Hl). reflexivity.
Qed.

Lemma join_cons_concat (sep x : pystr) (xs : list pystr) :
  join sep (x :: xs) = x ++ List.concat (map (fun w => sep ++ w) xs).
Proof.
  revert x. induction xs as [|y xs IH]; intros x.
  - simpl. now rewrite app_nil_r.
  - change (join sep (x :: y :: xs)) with (x ++ sep ++ join sep (y :: xs)).
    rewrite IH. simpl. now rewrite <- !app_assoc.
Qed.

Lemma no_char_concat (c0 : codepoint) (ws : list pystr) :
  no_char c0 (List.concat ws) = true -> forallb (no_char c0) ws = true.
Proof.
  induction ws as [|w ws IH]; simpl; [reflexivity|].
  rewrite no_char_app. intros H. apply andb_true_iff in H as [Hw Hws].
  now rewrite Hw, (IH Hws).
Qed.

Lemma no_char_filter (c0 : codepoint) (f : codepoint -> bool) (s : pystr) :
  no_char c0 s = true -> no_char c0 (filter f s) = true.
Proof.
  unfold no_char. induction s as [|c s IH]; simpl; [reflexivity|].
  intros H. apply andb_true_iff in H as [Hc Hs].
  destruct (f c); simpl; [rewrite Hc|]; auto.
Qed.

(** Once a word has been appended to the line, a further word either joins
    the accumulator behind a space or starts the next line: as text with the
    breaks read as spaces, the lines grow by a space and the word. *)
Lemma wrap_step_join (max_linelen : Z) (st : wrap_state) (word : pystr) :
  w_first_word st = false ->
  no_char NL word = true ->
  w_first_word (wrap_step max_linelen st word) = false
  /\ join [SP] (w_broken_lines (wrap_step max_linelen st word)
                ++ [w_acc (wrap_step max_linelen st word)])
     = join [SP] (w_broken_lines st ++ [w_acc st]) ++ [SP] ++ word
  /\ (forallb (no_char NL) (w_broken_lines st ++ [w_acc st]) = true ->
      forallb (no_char NL) (w_broken_lines (wrap_step max_linelen st word)
                            ++ [w_acc (wrap_step max_linelen st word)]) = true).
Proof.
  intros Hfirst Hnl. unfold wrap_step. rewrite (str_eqb_nl word Hnl), Hfirst.
  destruct (len (w_acc st ++ [SP] ++ word) + w_start_cursor_pos st >? max_linelen);
    cbn [w_first_word w_broken_lines w_acc negb].
  - split; [reflexivity|]. split.
    + rewrite join_snoc; [reflexivity|]. now destruct (w_broken_lines st).
    + intros H. rewrite forallb_app, H. simpl. now rewrite Hnl.
  - split; [reflexivity|]. split.
    + now rewrite join_last_app.
    + rewrite !forallb_app. simpl. rewrite !andb_true_r.
      change (SP :: word) with ([SP] ++ word).
      rewrite !no_char_app, Hnl. simpl. now rewrite !andb_true_r.
Qed.

Lemma wrap_fold_join (max_linelen : Z) (ws : list pystr) :
  forallb (no_char NL) ws = true ->
  forall st,
    w_first_word st = false ->
    join [SP] (w_broken_lines (fold_left (wrap_step max_linelen) ws st)
               ++ [w_acc (fold_left (wrap_step max_linelen) ws st)])
    = join [SP] (w_broken_lines st ++ [w_acc st])
        ++ List.concat (map (fun w => [SP] ++ w) ws)
    /\ (forallb (no_char NL) (w_broken_lines st ++ [w_acc st]) = true ->
        forallb (no_char NL)
                (w_broken_lines (fold_left (wrap_step max_linelen) ws st)
                 ++ [w_acc (fold_left (wrap_step max_linelen) ws st)]) = true).
Proof.
  induction ws as [|w ws IH]; intros Hnl st Hfirst; simpl fold_left.
  - simpl. rewrite app_nil_r. auto.
  - simpl in Hnl. apply andb_true_iff in Hnl as [Hw Hws].
    destruct (wrap_step_join max_linelen st w Hfirst Hw) as (Hf1 & Hj1 & Hn1).
    destruct (IH Hws _ Hf1) as [Hj Hn]. split.
    + rewrite Hj, Hj1. simpl. now rewrite <- !app_assoc.
    + intros H. auto.
Qed.

(** A word that is not empty leaves the accumulator not empty. *)
Lemma wrap_step_acc (max_linelen : Z) (st : wrap_state) (word : pystr) :
  word <> [] -> no_char NL word = true ->
  w_acc (wrap_step max_linelen st word) <> [].
Proof.
  intros Hne Hnl. unfold wrap_step. rewrite (str_eqb_nl word Hnl).
  destruct (_ >? _); cbn [w_acc negb]; [exact Hne|].
  destruct (negb (w_first_word st)); [|exact Hne].
  now destruct (w_acc st).
Qed.

(** Wrapping only turns spaces into line breaks.  On a line without
    newline that does not end in a space, whose first unit fits behind the
    cursor with the space the overflow test counts, [linebreak_text] returns
    a text that, with its line breaks read as spaces, is the line. *)
Theorem linebreak_text_keeps_text
    (l : pystr) (c : codepoint) (w1 : pystr) (ws : list pystr)
    (max_linelen start_cursor_pos : Z) :
  no_char NL (l ++ [c]) = true ->
  c <> SP ->
  ruby_aware_split_words (l ++ [c]) = Ok (w1 :: ws) ->
  len w1 + 1 + start_cursor_pos <= max_linelen ->
  exists out,
    linebreak_text (l ++ [c]) max_linelen start_cursor_pos = Ok out
    /\ unbreak out = l ++ [c].
Proof.
  intros Hnl Hc Hsplit Hfirst.
  set (line := l ++ [c]) in *.
  unfold linebreak_text. rewrite noruby_len_total. cbn [bind].
  destruct (noruby_width line + start_cursor_pos <? max_linelen);
    [exists line; split; [reflexivity | exact (unbreak_id line Hnl)]|].
  rewrite Hsplit. cbn [bind]. rewrite map_noruby_len. cbn [bind map py_max].
  destruct (max_linelen <? _);
    [exists line; split; [reflexivity | exact (unbreak_id line Hnl)]|].
  destruct (ruby_aware_split_words_join l c (w1 :: ws) Hnl Hsplit) as [Hjoin Hlast].
  apply N.eqb_neq in Hc as Hcb. rewrite Hcb, app_nil_r in Hjoin.
  destruct (Hlast Hc) as (ws0 & wl & Hws).
  assert (Hwords : forallb (no_char NL) (w1 :: ws) = true).
  { apply no_char_concat. rewrite (ruby_aware_split_words_concat line _ Hsplit).
    now apply no_char_filter. }
  simpl in Hwords. apply andb_true_iff in Hwords as [Hw1 Hwsn].
  assert (Hstep1 : wrap_step max_linelen (mkWrap [] [] start_cursor_pos true) w1
                   = mkWrap [] w1 start_cursor_pos false).
  { unfold wrap_step. cbn [w_acc w_start_cursor_pos w_broken_lines w_first_word].
    rewrite !len_app. change (len []) with 0. change (len [SP]) with 1.
    destruct (Z.gtb_spec (0 + (1 + len w1) + start_cursor_pos) max_linelen); [lia|].
    now rewrite (str_eqb_nl w1 Hw1). }
  unfold pack_lines.
  set (stf := fold_left (wrap_step max_linelen) (w1 :: ws)
                        (mkWrap [] [] start_cursor_pos true)).
  assert (Hacc : w_acc stf <> []).
  { subst stf. rewrite Hws, fold_left_app. simpl fold_left.
    assert (Hwl : forallb (no_char NL) (ws0 ++ [wl ++ [c]]) = true).
    { rewrite <- Hws. simpl. now rewrite Hw1, Hwsn. }
    rewrite forallb_app in Hwl. apply andb_true_iff in Hwl as [_ Hwl].
    simpl in Hwl. rewrite andb_true_r in Hwl.
    apply wrap_step_acc; [now destruct wl | exact Hwl]. }
  assert (Hfold : stf = fold_left (wrap_step max_linelen) ws
                                  (mkWrap [] w1 start_cursor_pos false)).
  { subst stf. simpl fold_left. now rewrite Hstep1. }
  destruct (wrap_fold_join max_linelen ws Hwsn (mkWrap [] w1 start_cursor_pos false)
              eq_refl) as [Hj Hn].
  rewrite <- Hfold in Hj, Hn. cbn [w_broken_lines w_acc app] in Hj, Hn.
  assert (Ht : truthy (w_acc stf) = true) by (now destruct (w_acc stf)).
  rewrite Ht. cbn [bind].
  exists (join [NL] (w_broken_lines stf ++ [w_acc stf])). split; [reflexivity|].
  rewrite unbreak_join.
  - rewrite Hj. unfold line. rewrite <- Hjoin.
    rewrite (join_cons_concat [SP] w1 ws). reflexivity.
  - apply Hn. simpl. now rewrite Hw1.
Qed.

Lemma linebreak_text_keeps_text_witness :
  exists out,
    linebreak_text (of_string "<a|b> cc " ++ of_string "d") 6 0 = Ok out
    /\ unbreak out = of_string "<a|b> cc " ++ of_string "d".
Proof.
  apply (linebreak_text_keeps_text (of_string "<a|b> cc ") 100%N
           (of_string "<a|b>") [of_string "cc"; of_string "d"] 6 0).
  - reflexivity.
  - discriminate.
  - reflexivity.
  - discriminate.
Defined.
